(** * hf_downloader: a shallow embedding of [hf_downloader.py]

    The development follows the source file top to bottom: Python strings
    and [pathlib] paths, the exceptions the program can see, a small
    state-and-exception monad for the effectful functions, then
    [get_token], [get_output_dir], [filter_files], [download_file],
    [list_dataset_files] and [main].

    What the program does not contain itself (the operating system, the
    [requests] library, the HuggingFace API, the thread scheduler) is a
    record of oracles, [world]: every theorem quantifies over it. *)

From Stdlib Require Import ZArith Ascii String DecimalString List Lia Permutation.
From stdpp Require Import gmap strings list fin_maps.

Local Open Scope string_scope.

(** * Python strings

    A [str] is a Stdlib [string]; the embedding is exact for ASCII text
    ([lower] and [strip] leave characters above 127 alone). *)

Module Str.

(** [s.startswith(p)] *)
Fixpoint startswith (s p : string) : bool :=
  match p, s with
  | EmptyString, _ => true
  | String a p', String b s' => if Ascii.eqb a b then startswith s' p' else false
  | String _ _, EmptyString => false
  end.

(** [s.endswith(suffix)]: the last [len(suffix)] characters are [suffix]. *)
Definition endswith (s suffix : string) : bool :=
  let n := String.length s in
  let k := String.length suffix in
  (k <=? n)%nat && String.eqb (substring (n - k) k s) suffix.

Definition lower_char (c : ascii) : ascii :=
  let n := nat_of_ascii c in
  if ((65 <=? n) && (n <=? 90))%nat then ascii_of_nat (n + 32) else c.

(** [s.lower()] *)
Fixpoint lower (s : string) : string :=
  match s with
  | EmptyString => EmptyString
  | String c s' => String (lower_char c) (lower s')
  end.

(** The ASCII characters [str.isspace] accepts: tab, line feed, vertical
    tab, form feed, carriage return, the four separators 28..31, space. *)
Definition isspace (c : ascii) : bool :=
  let n := nat_of_ascii c in
  (((9 <=? n) && (n <=? 13)) || ((28 <=? n) && (n <=? 32)))%nat.

Fixpoint lstrip (s : string) : string :=
  match s with
  | EmptyString => EmptyString
  | String c s' => if isspace c then lstrip s' else s
  end.

Fixpoint rstrip (s : string) : string :=
  match s with
  | EmptyString => EmptyString
  | String c s' =>
      match rstrip s' with
      | EmptyString => if isspace c then EmptyString else String c EmptyString
      | r => String c r
      end
  end.

(** [s.strip()] *)
Definition strip (s : string) : string := rstrip (lstrip s).

(** [s.split(sep)] for a one-character separator: one more piece than
    there are separators, empty pieces kept. *)
Fixpoint split (sep : ascii) (s : string) : list string :=
  match s with
  | EmptyString => [EmptyString]
  | String c s' =>
      if Ascii.eqb c sep then EmptyString :: split sep s'
      else match split sep s' with
           | h :: t => String c h :: t
           | [] => [String c EmptyString]
           end
  end.

(** [s.replace(a, b)] for one-character [a] and [b]. *)
Fixpoint replace (a b : ascii) (s : string) : string :=
  match s with
  | EmptyString => EmptyString
  | String c s' => String (if Ascii.eqb c a then b else c) (replace a b s')
  end.

(** [sep.join(l)] *)
Fixpoint join (sep : string) (l : list string) : string :=
  match l with
  | [] => EmptyString
  | [x] => x
  | x :: l' => x +:+ sep +:+ join sep l'
  end.

(** [str(n)] for an [int]. *)
Definition of_Z (n : Z) : string := NilZero.string_of_int (Z.to_int n).
Definition of_nat (n : nat) : string := of_Z (Z.of_nat n).

(** Truthiness of a [str]: non-empty. *)
Definition truthy (s : string) : bool :=
  match s with EmptyString => false | String _ _ => true end.

End Str.

(** * [pathlib] paths

    A [Path] is its [parts] tuple on a POSIX system: for an absolute path
    the root (["/"], or ["//"] for exactly two leading slashes) comes
    first, then the components. Parsing drops empty components and ["."],
    and keeps [".."]. *)

Abbreviation Path := (list string).

Module Pathlib.

Fixpoint lstrip_sep (s : string) : string :=
  match s with
  | String "/" s' => lstrip_sep s'
  | _ => s
  end.

(** [splitroot] of the POSIX flavour: the root and the rest. *)
Definition splitroot (part : string) : string * string :=
  match part with
  | String "/" _ =>
      let stripped := lstrip_sep part in
      if (String.length part - String.length stripped =? 2)%nat
      then ("//", stripped) else ("/", stripped)
  | _ => (EmptyString, part)
  end.

Definition keep_component (x : string) : bool :=
  Str.truthy x && negb (String.eqb x ".").

(** [Path(s)] *)
Definition parse (s : string) : Path :=
  let '(root, rel) := splitroot s in
  let parsed := List.filter keep_component (Str.split "/" rel) in
  if Str.truthy root then root :: parsed else parsed.

Definition is_root (r : string) : bool := Str.startswith r "/".

(** [p.is_absolute()] *)
Definition is_absolute (p : Path) : bool :=
  match p with
  | r :: _ => is_root r
  | [] => false
  end.

(** [p / key]: an absolute [key] replaces [p]. *)
Definition truediv (p : Path) (key : string) : Path :=
  let k := parse key in
  if is_absolute k then k else (p ++ k)%list.

(** [p.parent]: the root and the empty path are their own parents. *)
Definition parent (p : Path) : Path :=
  match p with
  | [r] => if is_root r then p else []
  | _ => removelast p
  end.

(** [p] followed by [p.parents]: the path and its ancestors, nearest
    first. *)
Fixpoint lineage (steps : nat) (p : Path) : list Path :=
  match steps with
  | O => [p]
  | S n => p :: lineage n (parent p)
  end.

Definition self_and_parents (p : Path) : list Path := lineage (length p) p.

(** [str(p)] *)
Definition to_str (p : Path) : string :=
  match p with
  | [] => "."
  | r :: rest => if is_root r then r +:+ Str.join "/" rest else Str.join "/" p
  end.

(** [p.absolute()], with [cwd] the string [os.getcwd()] returns. *)
Definition absolute (cwd : string) (p : Path) : Path :=
  if is_absolute p then p else (parse cwd ++ p)%list.

End Pathlib.

Declare Scope path_scope.
Delimit Scope path_scope with path.
Infix "/" := Pathlib.truediv : path_scope.

(** * Exceptions

    The exceptions that reach the program's [except] clauses, each with
    the text [str(e)] gives. [IOError] is Python 3's alias of [OSError];
    [requests.exceptions.RequestException] derives from it, and the two
    HuggingFace errors derive from [requests]' [HTTPError], the gated one
    from the not-found one. [SystemExit] is not an [Exception]. *)

Inductive exn :=
| AttributeError (msg : string)
| ValueError (msg : string)
| OSError (msg : string)
| RequestException (msg : string)
| RepositoryNotFoundError (msg : string)
| GatedRepoError (msg : string)
| OtherException (msg : string)
| SystemExit (code : Z).

Inductive exn_class :=
| IOError_class
| RequestException_class
| RepositoryNotFoundError_class
| GatedRepoError_class
| Exception_class.

Definition isinstance (e : exn) (c : exn_class) : bool :=
  match e, c with
  | SystemExit _, _ => false
  | _, Exception_class => true
  | OSError _, IOError_class => true
  | RequestException _, (IOError_class | RequestException_class) => true
  | RepositoryNotFoundError _,
    (IOError_class | RequestException_class | RepositoryNotFoundError_class) => true
  | GatedRepoError _, _ => true
  | _, _ => false
  end.

(** [str(e)] *)
Definition exn_str (e : exn) : string :=
  match e with
  | AttributeError m | ValueError m | OSError m | RequestException m
  | RepositoryNotFoundError m | GatedRepoError m | OtherException m => m
  | SystemExit c => Str.of_Z c
  end.

(** * The process state and its monad *)

Abbreviation bytes := (list Byte.byte).

Record proc := {
  files : gmap Path bytes;      (* regular files on disk, by path *)
  dirs : gset Path;             (* directories [Path.mkdir] has left in place *)
  stdout : list string;         (* one entry per [print] call *)
  progress_bar : option nat     (* the tqdm bar's count, once created *)
}.

Inductive res (A : Type) :=
| Ret (a : A)
| Raise (e : exn).
Arguments Ret {A} a.
Arguments Raise {A} e.

Definition M (A : Type) : Type := proc -> res A * proc.

Definition ret {A} (a : A) : M A := fun st => (Ret a, st).
Definition raise {A} (e : exn) : M A := fun st => (Raise e, st).
Definition bind {A B} (m : M A) (k : A -> M B) : M B :=
  fun st =>
    match m st with
    | (Ret a, st') => k a st'
    | (Raise e, st') => (Raise e, st')
    end.

Notation "x <- m ;; k" := (bind m (fun x => k))
  (at level 100, m at next level, right associativity).
Notation "m ;; k" := (bind m (fun _ => k))
  (at level 100, right associativity).

(** [try: body except C1: h1 except C2: h2 ...]: the first clause whose
    class the exception is an instance of handles it; the state reached
    when the exception was raised is kept. *)
Fixpoint find_handler {A} (e : exn) (clauses : list (exn_class * (exn -> M A)))
  : option (M A) :=
  match clauses with
  | [] => None
  | (c, h) :: rest => if isinstance e c then Some (h e) else find_handler e rest
  end.

Definition try_except {A} (body : M A) (clauses : list (exn_class * (exn -> M A))) : M A :=
  fun st =>
    match body st with
    | (Ret a, st') => (Ret a, st')
    | (Raise e, st') =>
        match find_handler e clauses with
        | Some h => h st'
        | None => (Raise e, st')
        end
    end.

(** [for x in l: body(x)] *)
Fixpoint for_each {A} (l : list A) (body : A -> M unit) : M unit :=
  match l with
  | [] => ret tt
  | x :: l' => body x ;; for_each l' body
  end.

Definition print (s : string) : M unit :=
  fun st => (Ret tt, {| files := files st; dirs := dirs st;
                        stdout := (stdout st ++ [s])%list;
                        progress_bar := progress_bar st |}).

Definition sys_exit {A} (code : Z) : M A := raise (SystemExit code).

(** * The world outside the program

    [requests.get(url, headers, stream=True, timeout=60)] either raises a
    [RequestException] or hands back a response: its status, the chunks
    [iter_content(8192)] will yield, and the [RequestException] (if any)
    that interrupts the stream after them. *)

Record response := {
  status_code : Z;
  reason : string;
  response_url : string;
  chunks : list bytes;
  stream_error : option string
}.

(** What [list_repo_files] can raise: the two HuggingFace errors the
    program names, or any other [Exception]. *)
Inductive api_error :=
| RepoNotFound (msg : string)
| RepoGated (msg : string)
| ApiFailure (msg : string).

Definition api_exn (e : api_error) : exn :=
  match e with
  | RepoNotFound m => RepositoryNotFoundError m
  | RepoGated m => GatedRepoError m
  | ApiFailure m => OtherException m
  end.

Record world := {
  (* os.environ *)
  environ : gmap string string;
  (* os.getcwd() *)
  getcwd : string;
  (* Path.mkdir(parents=True, exist_ok=True): the OSError text, if it fails *)
  os_mkdir : Path -> option string;
  (* open(path, "wb"): the OSError text, if it fails *)
  os_open : Path -> option string;
  (* f.write(chunk) with [written] bytes already in the file *)
  os_write : Path -> bytes -> bytes -> option string;
  (* requests.get(url, headers=...) *)
  requests_get : string -> list (string * string) -> string + response;
  (* HfApi().list_repo_files(repo_id, repo_type="dataset", token) *)
  list_repo_files : string -> option string -> api_error + list string;
  (* hf_hub_url(repo_id, filename, repo_type="dataset") *)
  hf_hub_url : string -> string -> string;
  (* whether [from tqdm import tqdm] succeeds *)
  tqdm_installed : bool;
  (* the scheduler: which pending future completes next, step by step *)
  completion : list nat
}.

(** [response.raise_for_status()]: [HTTPError] for 4xx and 5xx only. *)
Definition raise_for_status (r : response) : M unit :=
  if ((400 <=? status_code r) && (status_code r <? 500))%Z then
    raise (RequestException
             (Str.of_Z (status_code r) +:+ " Client Error: " +:+ reason r
              +:+ " for url: " +:+ response_url r))
  else if ((500 <=? status_code r) && (status_code r <? 600))%Z then
    raise (RequestException
             (Str.of_Z (status_code r) +:+ " Server Error: " +:+ reason r
              +:+ " for url: " +:+ response_url r))
  else ret tt.

Definition set_files (f : gmap Path bytes -> gmap Path bytes) (st : proc) : proc :=
  {| files := f (files st); dirs := dirs st; stdout := stdout st;
     progress_bar := progress_bar st |}.

Definition set_dirs (f : gset Path -> gset Path) (st : proc) : proc :=
  {| files := files st; dirs := f (dirs st); stdout := stdout st;
     progress_bar := progress_bar st |}.

(** [lay W D st]: the state [st] with the files of [W] laid over its
    files and the directories of [D] added to its directories. *)
Definition lay (W : gmap Path bytes) (D : gset Path) (st : proc) : proc :=
  set_files (union W) (set_dirs (union D) st).

(** The directories in place once [p.mkdir(parents=True, exist_ok=True)]
    has returned: [p] and all its ancestors, created or already there. *)
Definition ensured (p : Path) : gset Path :=
  list_to_set (Pathlib.self_and_parents p).

(** [path.mkdir(parents=True, exist_ok=True)]: on success the path and
    its ancestors are in place; a failed call is taken to leave nothing
    behind. *)
Definition mkdir (w : world) (p : Path) : M unit :=
  fun st =>
    match os_mkdir w p with
    | Some msg => (Raise (OSError msg), st)
    | None => (Ret tt, set_dirs (union (ensured p)) st)
    end.

(** [open(path, "wb")]: the file is created or truncated. *)
Definition open_wb (w : world) (p : Path) : M unit :=
  fun st =>
    match os_open w p with
    | Some msg => (Raise (OSError msg), st)
    | None => (Ret tt, set_files (insert p []) st)
    end.

(** [f.write(chunk)] on the file opened at [p]: appended at the end. *)
Definition write (w : world) (p : Path) (chunk : bytes) : M unit :=
  fun st =>
    let written := default [] (files st !! p) in
    match os_write w p written chunk with
    | Some msg => (Raise (OSError msg), st)
    | None => (Ret tt, set_files (insert p (written ++ chunk)%list) st)
    end.

(** [for chunk in response.iter_content(chunk_size=8192): body(chunk)] *)
Definition iter_content (r : response) (body : bytes -> M unit) : M unit :=
  for_each (chunks r) body ;;
  match stream_error r with
  | Some msg => raise (RequestException msg)
  | None => ret tt
  end.

(** Truthiness of an [Optional[str]]. *)
Definition truthy_opt (o : option string) : bool :=
  match o with
  | Some s => Str.truthy s
  | None => false
  end.

(** * Python values the program passes around

    [list_dataset_files] builds each manifest entry as the dict
    [{"rfilename": f, "url": url}], and [download_file] subscripts it.
    [filter_files] instead reads the attribute [f.rfilename], which a
    dict does not have; an object such as huggingface_hub's [RepoSibling]
    does. Attribute access is therefore an interface with one instance
    per kind of value. *)

Record file_info := { rfilename : string; url : string }.

Record sibling := { sibling_rfilename : string; sibling_size : option Z }.

Class HasRfilename (A : Type) := getattr_rfilename : A -> res string.

#[export] Instance dict_getattr : HasRfilename file_info :=
  fun _ => Raise (AttributeError "'dict' object has no attribute 'rfilename'").

#[export] Instance sibling_getattr : HasRfilename sibling :=
  fun s => Ret (sibling_rfilename s).

(** The [argparse] namespace. *)
Record arguments := {
  args_dataset : string;
  args_base_url : string;
  args_output : option string;
  args_threads : Z;
  args_filter : option string;
  args_limit : option Z;
  args_token : option string;
  args_progress : bool;
  args_dry_run : bool;
  args_verbose : bool
}.

(** * The program *)

Definition get_token (w : world) (args_token : option string) : option string :=
  if truthy_opt args_token then args_token
  else environ w !! "HF_TOKEN".

Definition get_output_dir (dataset : string) (output : option string) : Path :=
  match output with
  | Some o => if Str.truthy o then Pathlib.parse o
              else Pathlib.parse (Str.replace "/" "_" dataset)
  | None => Pathlib.parse (Str.replace "/" "_" dataset)
  end.

(** [l[:n]]: a negative [n] counts from the end. *)
Definition slice_to {A} (l : list A) (n : Z) : list A :=
  if (0 <=? n)%Z then firstn (Z.to_nat n) l
  else firstn (length l - Z.to_nat (- n)) l.

(** Truthiness of an [Optional[int]]: given and not zero. *)
Definition truthy_int (o : option Z) : bool :=
  match o with
  | Some n => negb (n =? 0)%Z
  | None => false
  end.

Section FilterFiles.
Context {A : Type} `{HasRfilename A}.

(** [ext if ext.startswith(".") else f".{ext}"] *)
Definition with_dot (ext : string) : string :=
  if Str.startswith ext "." then ext else "." +:+ ext.

(** The two comprehensions that build [ext_list]. *)
Definition ext_list_of (extensions : string) : list string :=
  let ext_list := map (fun ext => Str.lower (Str.strip ext)) (Str.split "," extensions) in
  map with_dot ext_list.

(** [any(f.rfilename.lower().endswith(ext) for ext in ext_list)]: the
    attribute is read once per extension tried. *)
Fixpoint any_endswith (f : A) (ext_list : list string) : res bool :=
  match ext_list with
  | [] => Ret false
  | ext :: rest =>
      match getattr_rfilename f with
      | Raise e => Raise e
      | Ret name =>
          if Str.endswith (Str.lower name) ext then Ret true
          else any_endswith f rest
      end
  end.

(** [[f for f in files if any(...)]] *)
Fixpoint keep_matching (files : list A) (ext_list : list string) : res (list A) :=
  match files with
  | [] => Ret []
  | f :: rest =>
      match any_endswith f ext_list with
      | Raise e => Raise e
      | Ret keep =>
          match keep_matching rest ext_list with
          | Raise e => Raise e
          | Ret kept => Ret (if keep then f :: kept else kept)
          end
      end
  end.

Definition filter_files (files : list A) (extensions : option string)
    (limit : option Z) : res (list A) :=
  match (if truthy_opt extensions
         then keep_matching files (ext_list_of (default EmptyString extensions))
         else Ret files) with
  | Raise e => Raise e
  | Ret files =>
      Ret (if truthy_int limit then slice_to files (default 0%Z limit) else files)
  end.
End FilterFiles.

Definition lift {A} (r : res A) : M A := fun st => (r, st).

Definition download_file (w : world) (file_info : file_info) (output_dir : Path)
    (token : option string) (verbose : bool) : M (string * bool * string) :=
  let filename := rfilename file_info in
  let url := url file_info in
  let file_path := (output_dir / filename)%path in
  mkdir w (Pathlib.parent file_path) ;;
  try_except
    (let headers :=
       if truthy_opt token
       then [("Authorization", "Bearer " +:+ default EmptyString token)]
       else [] in
     response <- match requests_get w url headers with
                 | inl msg => raise (RequestException msg)
                 | inr r => ret r
                 end ;;
     raise_for_status response ;;
     (open_wb w file_path ;;
      iter_content response (fun chunk => write w file_path chunk)) ;;
     if verbose then ret (filename, true, "Downloaded: " +:+ filename)
     else ret (filename, true, EmptyString))
    [ (RequestException_class,
       fun e => ret (filename, false, "Failed: " +:+ filename +:+ " - " +:+ exn_str e));
      (IOError_class,
       fun e => ret (filename, false, "IO Error: " +:+ filename +:+ " - " +:+ exn_str e)) ].

(** The loop of [list_dataset_files], [file_infos] being the list built
    so far. *)
Fixpoint collect_file_infos (w : world) (dataset : string) (files : list string)
    (file_infos : list file_info) : list file_info :=
  match files with
  | [] => file_infos
  | f :: rest =>
      if Str.startswith f "." then collect_file_infos w dataset rest file_infos
      else collect_file_infos w dataset rest
             (file_infos ++ [{| rfilename := f; url := hf_hub_url w dataset f |}])%list
  end.

Definition list_dataset_files (w : world) (dataset : string) (token : option string)
  : M (list file_info) :=
  try_except
    (files <- match list_repo_files w dataset token with
              | inl e => raise (api_exn e)
              | inr files => ret files
              end ;;
     ret (collect_file_infos w dataset files []))
    [ (RepositoryNotFoundError_class,
       fun _ =>
         print ("Error: Dataset '" +:+ dataset +:+ "' not found.") ;;
         print "Check if the dataset exists or if you need authentication for private datasets." ;;
         sys_exit 1);
      (GatedRepoError_class,
       fun _ =>
         print ("Error: Dataset '" +:+ dataset +:+ "' is gated/private.") ;;
         print "Use --token YOUR_TOKEN to authenticate." ;;
         sys_exit 1);
      (Exception_class,
       fun e =>
         print ("Error listing files: " +:+ exn_str e) ;;
         sys_exit 1) ].

(** * The thread pool

    A future holds what its call of [download_file] returned or raised.
    Workers are taken to run one after the other, in the order in which
    they complete; [as_completed] yields the futures in that order. The
    order is the scheduler's: at each step [completion w] picks one of
    the futures still pending. *)

Fixpoint remove_nth {A} (i : nat) (l : list A) : list A :=
  match i, l with
  | _, [] => []
  | O, _ :: l' => l'
  | S i', x :: l' => x :: remove_nth i' l'
  end.

Fixpoint as_completed {A} (picks : list nat) (fuel : nat) (pending : list A) : list A :=
  match fuel, pending with
  | S fuel', x :: _ =>
      let i := (hd O picks mod length pending)%nat in
      nth i pending x :: as_completed (tl picks) fuel' (remove_nth i pending)
  | _, _ => []
  end.

Definition completion_order {A} (w : world) (submitted : list A) : list A :=
  as_completed (completion w) (length submitted) submitted.

(** Running a submitted call to its end: the exception, if any, stays in
    the future. *)
Definition run_future {A} (m : M A) : M (res A) :=
  fun st => let '(r, st') := m st in (Ret r, st').

(** [future.result()] *)
Definition future_result {A} (future : res A) : M A := lift future.

Fixpoint run_workers {A B} (task : A -> M B) (order : list A) : M (list (res B)) :=
  match order with
  | [] => ret []
  | x :: rest =>
      future <- run_future (task x) ;;
      futures <- run_workers task rest ;;
      ret (future :: futures)
  end.

(** [ThreadPoolExecutor(max_workers=threads)] *)
Definition thread_pool_executor (threads : Z) : M unit :=
  if (threads <=? 0)%Z then raise (ValueError "max_workers must be greater than 0")
  else ret tt.

(** [tqdm(total=..., desc=..., unit=...)] and [progress_bar.update(n)] *)
Definition tqdm_create : M unit :=
  fun st => (Ret tt, {| files := files st; dirs := dirs st; stdout := stdout st;
                        progress_bar := Some O |}).

Definition tqdm_update (k : nat) : M unit :=
  fun st =>
    match progress_bar st with
    | Some n => (Ret tt, {| files := files st; dirs := dirs st; stdout := stdout st;
                            progress_bar := Some (n + k)%nat |})
    | None => (Raise (OtherException "name 'progress_bar' is not defined"), st)
    end.

(** [progress_bar.close()] leaves the count as it is. *)
Definition tqdm_close : M unit := ret tt.

Definition when (b : bool) (m : M unit) : M unit := if b then m else ret tt.

(** The body of [for future in as_completed(futures)] with the two
    running counters. *)
Fixpoint collect_outcomes (progress verbose : bool)
    (futures : list (res (string * bool * string)))
    (success_count fail_count : nat) : M (nat * nat) :=
  match futures with
  | [] => ret (success_count, fail_count)
  | future :: rest =>
      outcome <- future_result future ;;
      let '(filename, success, message) := outcome in
      counts <- (if success : bool then ret (S success_count, fail_count)
                 else (when (Str.truthy message) (print message) ;;
                       ret (success_count, S fail_count))) ;;
      (if progress then tqdm_update 1
       else when (verbose && Str.truthy message) (print message)) ;;
      collect_outcomes progress verbose rest (fst counts) (snd counts)
  end.

Definition nl : string := String "010"%char EmptyString.

Definition main (w : world) (args : arguments) : M unit :=
  let token := get_token w (args_token args) in
  let output_dir := get_output_dir (args_dataset args) (args_output args) in
  when (args_verbose args)
    (print ("Dataset: " +:+ args_dataset args) ;;
     print ("Output directory: " +:+ Pathlib.to_str output_dir) ;;
     print ("Threads: " +:+ Str.of_Z (args_threads args)) ;;
     when (truthy_opt (args_filter args))
       (print ("Filter: " +:+ default EmptyString (args_filter args))) ;;
     when (truthy_int (args_limit args))
       (print ("Limit: " +:+ Str.of_Z (default 0%Z (args_limit args)))) ;;
     print EmptyString) ;;
  print ("Fetching file list from '" +:+ args_dataset args +:+ "'...") ;;
  files <- list_dataset_files w (args_dataset args) token ;;
  when (match files with [] => true | _ => false end)
    (print "No files found in dataset." ;; sys_exit 0) ;;
  files <- lift (filter_files files (args_filter args) (args_limit args)) ;;
  when (match files with [] => true | _ => false end)
    (print "No files match the specified filters." ;; sys_exit 0) ;;
  print ("Found " +:+ Str.of_nat (length files) +:+ " file(s) to download.") ;;
  when (args_dry_run args)
    (print (nl +:+ "Files (dry run):") ;;
     for_each files (fun f => print ("  " +:+ rfilename f)) ;;
     sys_exit 0) ;;
  mkdir w output_dir ;;
  progress <-
    (if args_progress args then
       if tqdm_installed w then tqdm_create ;; ret true
       else
         print "Warning: tqdm not installed. Install with 'pip install tqdm' for progress bar." ;;
         print ("Continuing without progress bar..." +:+ nl) ;;
         ret false
     else ret false) ;;
  thread_pool_executor (args_threads args) ;;
  futures <- run_workers
               (fun f => download_file w f output_dir token (args_verbose args))
               (completion_order w files) ;;
  counts <- collect_outcomes progress (args_verbose args) futures 0 0 ;;
  when progress tqdm_close ;;
  print (nl +:+ "Download complete!") ;;
  print ("  Success: " +:+ Str.of_nat (fst counts)) ;;
  print ("  Failed:  " +:+ Str.of_nat (snd counts)) ;;
  print ("  Output:  " +:+ Pathlib.to_str (Pathlib.absolute (getcwd w) output_dir)).

(** How the process ends: [main] returns, [sys.exit(code)] is called, or
    an exception nobody catches reaches the interpreter, which prints a
    traceback and exits with status 1. *)
Inductive termination :=
| Completed
| Exited (code : Z)
| Uncaught (e : exn).

Definition terminate (r : res unit) : termination :=
  match r with
  | Ret _ => Completed
  | Raise (SystemExit c) => Exited c
  | Raise e => Uncaught e
  end.

Definition run_main (w : world) (args : arguments) (st : proc) : termination * proc :=
  let '(r, st') := main w args st in (terminate r, st').

Definition exit_status (t : termination) : Z :=
  match t with
  | Completed => 0
  | Exited c => c
  | Uncaught _ => 1
  end.

(** A fresh process: an empty disk, nothing printed, no progress bar. *)
Definition fresh : proc :=
  {| files := ∅; dirs := ∅; stdout := []; progress_bar := None |}.


(** * Computations that cannot fail

    [returns m]: from every state [m] returns a value. *)
Definition returns {A} (m : M A) : Prop :=
  forall st, exists a st', m st = (Ret a, st').

(** [say out st]: the state [st] after the lines [out] were printed. *)
Definition say (out : list string) (st : proc) : proc :=
  {| files := files st; dirs := dirs st; stdout := (stdout st ++ out)%list;
     progress_bar := progress_bar st |}.

(** [keeps_disk m]: [m], whether it returns or raises, leaves the files,
    the directories and the progress bar as they were. *)
Definition keeps_disk {A} (m : M A) : Prop :=
  forall st, files (snd (m st)) = files st
             /\ progress_bar (snd (m st)) = progress_bar st
             /\ dirs (snd (m st)) = dirs st.

(** * Staying under the destination root

    [inside root p]: [p] is [root] followed by components none of which
    is [".."]. *)
Fixpoint inside (root p : Path) : bool :=
  match root, p with
  | [], rest => forallb (fun c => negb (String.eqb c "..")) rest
  | r :: root', c :: p' => String.eqb r c && inside root' p'
  | _ :: _, [] => false
  end.

(** * Scenarios

    Concrete worlds and arguments on which the program is run below. *)

Module Scenario.

Definition ok_response (body : list bytes) : response :=
  {| status_code := 200; reason := "OK";
     response_url := "https://huggingface.co/datasets/u/d/resolve/main/f";
     chunks := body; stream_error := None |}.

(** Every call succeeds; the repository holds three files, one hidden. *)
Definition calm : world :=
  {| environ := ∅;
     getcwd := "/work";
     os_mkdir := fun _ => None;
     os_open := fun _ => None;
     os_write := fun _ _ _ => None;
     requests_get := fun _ _ => inr (ok_response [[Byte.x68; Byte.x69]; [Byte.x21]]);
     list_repo_files := fun _ _ => inr [".gitattributes"; "a.png"; "sub/b.json"];
     hf_hub_url := fun d f => "https://huggingface.co/datasets/" +:+ d +:+ "/resolve/main/" +:+ f;
     tqdm_installed := true;
     completion := [1; 0]%nat |}.

(** As [calm], with another repository listing. *)
Definition listing (names : list string) : world :=
  {| environ := environ calm; getcwd := getcwd calm; os_mkdir := os_mkdir calm;
     os_open := os_open calm; os_write := os_write calm;
     requests_get := requests_get calm;
     list_repo_files := fun _ _ => inr names;
     hf_hub_url := hf_hub_url calm; tqdm_installed := tqdm_installed calm;
     completion := completion calm |}.

(** As [listing names], but [data/sub] already exists as a regular file,
    so that creating it as a directory fails. *)
Definition blocked (names : list string) : world :=
  {| environ := environ calm; getcwd := getcwd calm;
     os_mkdir := fun p =>
       if decide (p = ["data"; "sub"])
       then Some "[Errno 17] File exists: 'data/sub'" else None;
     os_open := os_open calm; os_write := os_write calm;
     requests_get := requests_get calm;
     list_repo_files := fun _ _ => inr names;
     hf_hub_url := hf_hub_url calm; tqdm_installed := tqdm_installed calm;
     completion := completion calm |}.

(** As [calm], but the server answers 302 without a [Location] header:
    [requests] hands the response back as it is. *)
Definition found_elsewhere : world :=
  {| environ := environ calm; getcwd := getcwd calm; os_mkdir := os_mkdir calm;
     os_open := os_open calm; os_write := os_write calm;
     requests_get := fun u _ =>
       inr {| status_code := 302; reason := "Found"; response_url := u;
              chunks := [[Byte.x3c; Byte.x3e]]; stream_error := None |};
     list_repo_files := list_repo_files calm;
     hf_hub_url := hf_hub_url calm; tqdm_installed := tqdm_installed calm;
     completion := completion calm |}.

(** As [calm], but the server answers 404. *)
Definition missing : world :=
  {| environ := environ calm; getcwd := getcwd calm; os_mkdir := os_mkdir calm;
     os_open := os_open calm; os_write := os_write calm;
     requests_get := fun u _ =>
       inr {| status_code := 404; reason := "Not Found"; response_url := u;
              chunks := []; stream_error := None |};
     list_repo_files := list_repo_files calm;
     hf_hub_url := hf_hub_url calm; tqdm_installed := tqdm_installed calm;
     completion := completion calm |}.

(** A disk on which [data/a.png] already exists with other content. *)
Definition stale : proc :=
  {| files := {[ ["data"; "a.png"] := [Byte.x6f; Byte.x6c; Byte.x64; Byte.x6f; Byte.x6c; Byte.x64] ]};
     dirs := {[ ["data"] ]}; stdout := []; progress_bar := None |}.

(** As [calm], but the connection drops after the first chunk. *)
Definition dropped : world :=
  {| environ := environ calm; getcwd := getcwd calm; os_mkdir := os_mkdir calm;
     os_open := os_open calm; os_write := os_write calm;
     requests_get := fun u _ =>
       inr {| status_code := 200; reason := "OK"; response_url := u;
              chunks := [[Byte.x68; Byte.x69]];
              stream_error := Some "Connection broken: IncompleteRead" |};
     list_repo_files := list_repo_files calm;
     hf_hub_url := hf_hub_url calm; tqdm_installed := tqdm_installed calm;
     completion := completion calm |}.

(** As [calm], but no directory can be created. *)
Definition read_only : world :=
  {| environ := environ calm; getcwd := getcwd calm;
     os_mkdir := fun _ => Some "[Errno 13] Permission denied: 'data'";
     os_open := os_open calm; os_write := os_write calm;
     requests_get := requests_get calm;
     list_repo_files := list_repo_files calm;
     hf_hub_url := hf_hub_url calm; tqdm_installed := tqdm_installed calm;
     completion := completion calm |}.

(** As [calm], but the repository does not exist. *)
Definition gone : world :=
  {| environ := environ calm; getcwd := getcwd calm; os_mkdir := os_mkdir calm;
     os_open := os_open calm; os_write := os_write calm;
     requests_get := requests_get calm;
     list_repo_files := fun _ _ => inl (RepoNotFound "404 Client Error");
     hf_hub_url := hf_hub_url calm; tqdm_installed := tqdm_installed calm;
     completion := completion calm |}.

Definition entry (name : string) : file_info :=
  {| rfilename := name; url := hf_hub_url calm "u/d" name |}.

Definition args : arguments :=
  {| args_dataset := "u/d"; args_base_url := "https://huggingface.co/datasets";
     args_output := Some "data"; args_threads := 8; args_filter := None;
     args_limit := None; args_token := None; args_progress := false;
     args_dry_run := false; args_verbose := false |}.

Definition with_limit (n : Z) : arguments :=
  {| args_dataset := args_dataset args; args_base_url := args_base_url args;
     args_output := args_output args; args_threads := args_threads args;
     args_filter := args_filter args; args_limit := Some n;
     args_token := args_token args; args_progress := args_progress args;
     args_dry_run := args_dry_run args; args_verbose := args_verbose args |}.

Definition png_only : arguments :=
  {| args_dataset := args_dataset args; args_base_url := args_base_url args;
     args_output := args_output args; args_threads := args_threads args;
     args_filter := Some ".png"; args_limit := args_limit args;
     args_token := args_token args; args_progress := args_progress args;
     args_dry_run := args_dry_run args; args_verbose := args_verbose args |}.

Definition with_progress : arguments :=
  {| args_dataset := args_dataset args; args_base_url := args_base_url args;
     args_output := args_output args; args_threads := args_threads args;
     args_filter := args_filter args; args_limit := args_limit args;
     args_token := args_token args; args_progress := true;
     args_dry_run := args_dry_run args; args_verbose := args_verbose args |}.

Definition dry_run : arguments :=
  {| args_dataset := args_dataset args; args_base_url := args_base_url args;
     args_output := args_output args; args_threads := args_threads args;
     args_filter := args_filter args; args_limit := args_limit args;
     args_token := args_token args; args_progress := args_progress args;
     args_dry_run := true; args_verbose := args_verbose args |}.

Definition with_threads (n : Z) : arguments :=
  {| args_dataset := args_dataset args; args_base_url := args_base_url args;
     args_output := args_output args; args_threads := n;
     args_filter := args_filter args; args_limit := args_limit args;
     args_token := args_token args; args_progress := true;
     args_dry_run := args_dry_run args; args_verbose := args_verbose args |}.

End Scenario.
Example startswith_dot : Str.startswith ".gitattributes" "." = true.
Proof. reflexivity. Qed.
Example endswith_png : Str.endswith (Str.lower "A.PNG") ".png" = true.
Proof. reflexivity. Qed.
Example split_filter : Str.split "," ".png, JPG," = [".png"; " JPG"; EmptyString].
Proof. reflexivity. Qed.
Example strip_ext : Str.strip "  JPG " = "JPG".
Proof. reflexivity. Qed.
Example of_Z_neg : Str.of_Z (-12) = "-12".
Proof. reflexivity. Qed.
Example parse_nested : Pathlib.parse "images/./train//1.png" = ["images"; "train"; "1.png"].
Proof. reflexivity. Qed.
Example parse_dotdot : Pathlib.parse "../x" = [".."; "x"].
Proof. reflexivity. Qed.
Example parse_absolute : Pathlib.parse "/etc/passwd" = ["/"; "etc"; "passwd"].
Proof. reflexivity. Qed.
Example truediv_relative : (["out"] / "images/1.png")%path = ["out"; "images"; "1.png"].
Proof. reflexivity. Qed.
Example truediv_absolute : (["out"] / "/etc/passwd")%path = ["/"; "etc"; "passwd"].
Proof. reflexivity. Qed.
Example parent_file : Pathlib.parent ["out"; "images"; "1.png"] = ["out"; "images"].
Proof. reflexivity. Qed.
Example to_str_absolute : Pathlib.to_str ["/"; "w"; "out"] = "/w/out".
Proof. reflexivity. Qed.

(** * Strings and paths *)

Lemma split_nonempty sep s : Str.split sep s <> [].
Proof.
  destruct s as [|c s]; simpl; [discriminate|].
  destruct (Ascii.eqb c sep); [discriminate|].
  destruct (Str.split sep s); discriminate.
Qed.

Lemma ext_list_of_nonempty extensions : ext_list_of extensions <> [].
Proof.
  unfold ext_list_of. intros E.
  apply map_eq_nil in E. apply map_eq_nil in E.
  exact (split_nonempty _ _ E).
Qed.

Lemma with_dot_startswith ext : Str.startswith (with_dot ext) "." = true.
Proof.
  unfold with_dot. destruct (Str.startswith ext ".") eqn:E; [exact E|].
  destruct ext; reflexivity.
Qed.

(** * [get_token] *)

(** C10. [get_token] returns the command-line token whenever it is a
    non-empty string; an empty-string token and an absent one both give
    the value of [HF_TOKEN] in the environment, absent or not. *)
Theorem get_token_prefers_nonempty_argument (w : world) :
  (forall c s, get_token w (Some (String c s)) = Some (String c s))
  /\ get_token w (Some EmptyString) = environ w !! "HF_TOKEN"
  /\ get_token w None = environ w !! "HF_TOKEN".
Proof. repeat split. Qed.

(** * [list_dataset_files] *)

Lemma collect_file_infos_spec w dataset files acc :
  collect_file_infos w dataset files acc =
  (acc ++ map (fun f => {| rfilename := f; url := hf_hub_url w dataset f |})
            (List.filter (fun f => negb (Str.startswith f ".")) files))%list.
Proof.
  revert acc. induction files as [|f files IH]; intros acc; simpl.
  - now rewrite app_nil_r.
  - destruct (Str.startswith f "."); simpl.
    + apply IH.
    + rewrite IH, <- app_assoc. reflexivity.
Qed.

(** C9. Whatever the repository lists, [list_dataset_files] returns the
    entries of the names that do not start with a dot, in listing order:
    no hidden file is in the manifest handed on. *)
Theorem list_dataset_files_skips_hidden (w : world) (dataset : string)
    (token : option string) (names : list string) (st : proc) :
  list_repo_files w dataset token = inr names ->
  exists infos,
    list_dataset_files w dataset token st = (Ret infos, st)
    /\ map rfilename infos = List.filter (fun f => negb (Str.startswith f ".")) names
    /\ Forall (fun i => Str.startswith (rfilename i) "." = false) infos.
Proof.
  intros L.
  exists (collect_file_infos w dataset names []).
  split; [|split].
  - unfold list_dataset_files, try_except, bind, ret. rewrite L. reflexivity.
  - rewrite collect_file_infos_spec. simpl. rewrite map_map. simpl.
    apply map_id.
  - rewrite collect_file_infos_spec. simpl.
    apply List.Forall_forall. intros i Hi.
    apply in_map_iff in Hi. destruct Hi as (f & <- & Hf). simpl.
    apply filter_In in Hf. destruct Hf as [_ Hv].
    now apply negb_true_iff in Hv.
Qed.

Lemma list_dataset_files_skips_hidden_witness :
  exists infos,
    list_dataset_files Scenario.calm "u/d" None fresh = (Ret infos, fresh)
    /\ map rfilename infos = ["a.png"; "sub/b.json"]
    /\ Forall (fun i => Str.startswith (rfilename i) "." = false) infos.
Proof.
  exact (list_dataset_files_skips_hidden Scenario.calm "u/d" None
           [".gitattributes"; "a.png"; "sub/b.json"] fresh eq_refl).
Defined.

(** * [filter_files] *)

Lemma slice_to_length {A} (l : list A) (n : Z) :
  (0 <= n)%Z -> length (slice_to l n) = Nat.min (Z.to_nat n) (length l).
Proof.
  intros Hn. unfold slice_to.
  destruct (Z.leb_spec 0 n) as [_|Hlt]; [|lia].
  apply length_firstn.
Qed.

(** X12. Without an extension filter nothing is read from the entries,
    so the count cap works on any kind of entry. A cap of at least one
    keeps the first [limit] entries, all of them when there are fewer. *)
Lemma filter_files_limit_positive {A} `{HasRfilename A} (files : list A) (limit : Z) :
  (1 <= limit)%Z ->
  filter_files files None (Some limit) = Ret (firstn (Z.to_nat limit) files)
  /\ length (firstn (Z.to_nat limit) files) = Nat.min (length files) (Z.to_nat limit).
Proof.
  intros Hl. unfold filter_files. simpl.
  destruct (Z.eqb_spec limit 0) as [->|_]; [lia|]. simpl.
  unfold slice_to. destruct (Z.leb_spec 0 limit) as [_|Hlt]; [|lia].
  split; [reflexivity|]. rewrite length_firstn. lia.
Qed.

Lemma filter_files_unset {A} `{HasRfilename A} (files : list A) :
  filter_files files None None = Ret files.
Proof. reflexivity. Qed.

(** C3. With the limit 0 nothing is cut: [if limit:] takes 0 for an
    unset limit, and both entries of a two-entry manifest come back,
    where the cap [min(len(M), 0)] is 0. *)
Theorem filter_files_limit_zero_keeps_all :
  let M := [Scenario.entry "a.png"; Scenario.entry "b.json"] in
  filter_files M None (Some 0%Z) = Ret M
  /\ length M = 2%nat
  /\ Nat.min (length M) (Z.to_nat 0) = 0%nat.
Proof. repeat split. Qed.

(** On dict entries the attribute read fails as soon as there is an
    entry to test. *)
Lemma filter_files_dict_raises (f : file_info) (files : list file_info)
    (c : ascii) (extensions : string) (limit : option Z) :
  filter_files (f :: files) (Some (String c extensions)) limit =
  Raise (AttributeError "'dict' object has no attribute 'rfilename'").
Proof.
  unfold filter_files. simpl truthy_opt. cbv iota. simpl default.
  destruct (ext_list_of (String c extensions)) as [|ext rest] eqn:E.
  - now apply ext_list_of_nonempty in E.
  - reflexivity.
Qed.

(** C5. On the manifest [a.png, b.json, c.png] as [list_dataset_files]
    builds it (dict entries) and the extension list [".png"],
    [filter_files] raises [AttributeError] where the claim has it return
    [a.png, c.png]. *)
Theorem filter_files_extension_on_manifest_raises :
  filter_files
    [Scenario.entry "a.png"; Scenario.entry "b.json"; Scenario.entry "c.png"]
    (Some ".png") None
  = Raise (AttributeError "'dict' object has no attribute 'rfilename'").
Proof. reflexivity. Qed.

(** On entries that do carry the attribute the extension filter is the
    case-insensitive suffix test, order kept. *)
Lemma any_endswith_sibling (s : sibling) (ext_list : list string) :
  any_endswith s ext_list =
  Ret (existsb (Str.endswith (Str.lower (sibling_rfilename s))) ext_list).
Proof.
  induction ext_list as [|ext rest IH]; simpl; [reflexivity|].
  unfold getattr_rfilename, sibling_getattr.
  destruct (Str.endswith (Str.lower (sibling_rfilename s)) ext); [reflexivity|].
  apply IH.
Qed.

Lemma keep_matching_sibling (files : list sibling) (ext_list : list string) :
  keep_matching files ext_list =
  Ret (List.filter
         (fun s => existsb (Str.endswith (Str.lower (sibling_rfilename s))) ext_list)
         files).
Proof.
  induction files as [|s files IH]; simpl; [reflexivity|].
  rewrite any_endswith_sibling, IH. reflexivity.
Qed.

Lemma filter_files_sibling (files : list sibling) (c : ascii) (extensions : string) :
  filter_files files (Some (String c extensions)) None =
  Ret (List.filter
         (fun s => existsb (Str.endswith (Str.lower (sibling_rfilename s)))
                     (ext_list_of (String c extensions)))
         files).
Proof.
  unfold filter_files. simpl truthy_opt. cbv iota. simpl default.
  rewrite keep_matching_sibling. reflexivity.
Qed.

(** * The monad *)

Lemma set_files_id (f : gmap Path bytes -> gmap Path bytes) (st : proc) :
  f (files st) = files st -> set_files f st = st.
Proof.
  intros E. destruct st as [fs ds out bar]. unfold set_files. simpl in *. now rewrite E.
Qed.

Lemma set_files_set_files (f g : gmap Path bytes -> gmap Path bytes) (st : proc) :
  set_files f (set_files g st) = set_files (fun m => f (g m)) st.
Proof. reflexivity. Qed.

Lemma set_files_insert_insert (p : Path) (b b' : bytes) (st : proc) :
  set_files (insert p b) (set_files (insert p b') st) = set_files (insert p b) st.
Proof.
  unfold set_files. simpl. f_equal. apply insert_insert_eq.
Qed.

Lemma files_set_files f st : files (set_files f st) = f (files st).
Proof. reflexivity. Qed.

Lemma stdout_set_files f st : stdout (set_files f st) = stdout st.
Proof. reflexivity. Qed.

Lemma progress_bar_set_files f st : progress_bar (set_files f st) = progress_bar st.
Proof. reflexivity. Qed.

(** * [download_file] *)

(** The streaming loop on a file that holds [acc]: it writes every chunk
    and the file ends as [acc] followed by all of them, or a write raises
    [OSError] and the file keeps what was written until then. Either way
    the result and the content do not depend on the rest of the state. *)
Lemma write_loop_effect (w : world) (p : Path) (body : list bytes) (acc : bytes) :
  (forall st, files st !! p = Some acc ->
     for_each body (write w p) st
     = (Ret tt, set_files (insert p (acc ++ concat body)%list) st))
  \/ (exists msg content, forall st, files st !! p = Some acc ->
        for_each body (write w p) st
        = (Raise (OSError msg), set_files (insert p content) st)).
Proof.
  revert acc. induction body as [|chunk body IH]; intros acc.
  - left. intros st Hst. simpl. rewrite app_nil_r.
    unfold ret. f_equal. symmetry. apply set_files_id. now apply insert_id.
  - destruct (os_write w p acc chunk) as [msg|] eqn:Ew.
    + right. exists msg, acc. intros st Hst.
      simpl. unfold bind, write. rewrite Hst. simpl. rewrite Ew.
      f_equal. symmetry. apply set_files_id. now apply insert_id.
    + destruct (IH (acc ++ chunk)%list) as [Hok|(msg & content & Hbad)].
      * left. intros st Hst.
        simpl for_each. unfold bind. unfold write at 1. rewrite Hst. simpl default.
        rewrite Ew. rewrite Hok.
        -- rewrite set_files_insert_insert. now rewrite <- app_assoc.
        -- simpl. apply lookup_insert_eq.
      * right. exists msg, content. intros st Hst.
        simpl for_each. unfold bind. unfold write at 1. rewrite Hst. simpl default.
        rewrite Ew. rewrite Hbad.
        -- now rewrite set_files_insert_insert.
        -- simpl. apply lookup_insert_eq.
Qed.

Lemma raise_for_status_cases (r : response) :
  if ((400 <=? status_code r) && (status_code r <? 600))%Z
  then exists m, forall st, raise_for_status r st = (Raise (RequestException m), st)
  else forall st, raise_for_status r st = (Ret tt, st).
Proof.
  unfold raise_for_status.
  destruct (Z.leb_spec 400 (status_code r)), (Z.ltb_spec (status_code r) 500),
    (Z.leb_spec 500 (status_code r)), (Z.ltb_spec (status_code r) 600);
    simpl; try lia; try (eexists; intros st; reflexivity); intros st; reflexivity.
Qed.

(** What one call does, as a decision tree over what the world answers:
    the result and the new content of the target never depend on the state
    the call starts from. *)
Lemma download_file_cases (w : world) (d : file_info) (out : Path)
    (token : option string) (verbose : bool) :
  let name := rfilename d in
  let p := (out / name)%path in
  let headers :=
    if truthy_opt token
    then [("Authorization", "Bearer " +:+ default EmptyString token)] else [] in
  let run := download_file w d out token verbose in
  let made := set_dirs (union (ensured (Pathlib.parent p))) in
  match os_mkdir w (Pathlib.parent p) with
  | Some m => forall st, run st = (Raise (OSError m), st)
  | None =>
    match requests_get w (url d) headers with
    | inl e =>
        forall st,
          run st = (Ret (name, false, "Failed: " +:+ name +:+ " - " +:+ e), made st)
    | inr r =>
        if ((400 <=? status_code r) && (status_code r <? 600))%Z then
          exists m, forall st,
            run st = (Ret (name, false, "Failed: " +:+ name +:+ " - " +:+ m), made st)
        else
          match os_open w p with
          | Some e =>
              forall st,
                run st = (Ret (name, false, "IO Error: " +:+ name +:+ " - " +:+ e),
                          made st)
          | None =>
              (exists msg content,
                 (forall st, files st !! p = Some [] ->
                    for_each (chunks r) (write w p) st
                    = (Raise (OSError msg), set_files (insert p content) st))
                 /\ forall st,
                   run st = (Ret (name, false, "IO Error: " +:+ name +:+ " - " +:+ msg),
                             set_files (insert p content) (made st)))
              \/ (forall st, files st !! p = Some [] ->
                    for_each (chunks r) (write w p) st
                    = (Ret tt, set_files (insert p (concat (chunks r))) st))
                 /\ match stream_error r with
                 | Some e =>
                     forall st,
                       run st = (Ret (name, false, "Failed: " +:+ name +:+ " - " +:+ e),
                                 set_files (insert p (concat (chunks r))) (made st))
                 | None =>
                     forall st,
                       run st = (Ret (name, true,
                                      if verbose then "Downloaded: " +:+ name
                                      else EmptyString),
                                 set_files (insert p (concat (chunks r))) (made st))
                 end
          end
    end
  end.
Proof.
  intros name p headers run made. subst run made. unfold download_file.
  fold name. fold p. fold headers.
  destruct (os_mkdir w (Pathlib.parent p)) as [m|] eqn:Emk.
  { intros st. unfold bind, mkdir. rewrite Emk. reflexivity. }
  destruct (requests_get w (url d) headers) as [e|r] eqn:Eget.
  { intros st. unfold bind, mkdir, try_except. rewrite Emk. simpl. reflexivity. }
  pose proof (raise_for_status_cases r) as Hst.
  destruct ((400 <=? status_code r) && (status_code r <? 600))%Z.
  { destruct Hst as [m Hm]. exists m. intros st.
    unfold bind, mkdir, try_except. rewrite Emk. simpl. rewrite Hm. reflexivity. }
  destruct (os_open w p) as [e|] eqn:Eop.
  { intros st. unfold bind, mkdir, try_except, open_wb. rewrite Emk. simpl.
    rewrite Hst, Eop. reflexivity. }
  destruct (write_loop_effect w p (chunks r) []) as [Hok|(msg & content & Hbad)].
  - right. split; [exact Hok|].
    destruct (stream_error r) as [e|] eqn:Ese; intros st;
      unfold bind, mkdir, try_except, open_wb, iter_content; rewrite Emk; simpl;
      rewrite Hst, Eop; unfold bind;
      (rewrite Hok by (simpl; apply lookup_insert_eq));
      rewrite Ese; simpl; rewrite set_files_insert_insert;
      destruct verbose; reflexivity.
  - left. exists msg, content. split; [exact Hbad|]. intros st.
    unfold bind, mkdir, try_except, open_wb, iter_content. rewrite Emk. simpl.
    rewrite Hst, Eop. unfold bind.
    rewrite Hbad by (simpl; apply lookup_insert_eq).
    simpl. now rewrite set_files_insert_insert.
Qed.

(** The effect of a call on the state is to lay a map [W] over the files;
    [W] is empty or holds the target alone. *)
Lemma set_files_union_empty (st : proc) : set_files (union ∅) st = st.
Proof. apply set_files_id. apply (left_id ∅ (∪)). Qed.

Lemma set_files_insert_union (p : Path) (b : bytes) (st : proc) :
  set_files (insert p b) st = set_files (union {[p := b]}) st.
Proof.
  unfold set_files. f_equal. apply insert_union_singleton_l.
Qed.

Lemma set_dirs_union_empty (st : proc) : set_dirs (union ∅) st = st.
Proof.
  destruct st as [fs ds out bar]. unfold set_dirs. simpl.
  f_equal. apply (left_id_L ∅ (∪)).
Qed.

Lemma download_file_frame (w : world) (d : file_info) (out : Path)
    (token : option string) (verbose : bool) :
  exists (r : res (string * bool * string)) (W : gmap Path bytes) (D : gset Path),
    (forall k, k <> (out / rfilename d)%path -> W !! k = None)
    /\ forall st, download_file w d out token verbose st = (r, lay W D st).
Proof.
  unfold lay.
  pose proof (download_file_cases w d out token verbose) as H. simpl in H.
  assert (Hempty : forall k : Path, k <> (out / rfilename d)%path ->
                     (∅ : gmap Path bytes) !! k = None)
    by (intros; apply lookup_empty).
  assert (Hsingle : forall (b : bytes) (k : Path), k <> (out / rfilename d)%path ->
                      ({[(out / rfilename d)%path := b]} : gmap Path bytes) !! k = None)
    by (intros; apply lookup_singleton_ne; congruence).
  destruct (os_mkdir w _) as [m|].
  { eexists _, ∅, ∅. split; [exact Hempty|]. intros st.
    rewrite set_files_union_empty, set_dirs_union_empty. apply H. }
  destruct (requests_get w _ _) as [e|r].
  { eexists _, ∅, _. split; [exact Hempty|]. intros st.
    rewrite set_files_union_empty. apply H. }
  destruct ((400 <=? status_code r) && (status_code r <? 600))%Z.
  { destruct H as [m H]. eexists _, ∅, _. split; [exact Hempty|]. intros st.
    rewrite set_files_union_empty. apply H. }
  destruct (os_open w _) as [e|].
  { eexists _, ∅, _. split; [exact Hempty|]. intros st.
    rewrite set_files_union_empty. apply H. }
  destruct H as [(msg & content & _ & H)|[_ H]].
  { eexists _, {[_ := content]}, _. split; [apply Hsingle|]. intros st.
    rewrite <- set_files_insert_union. apply H. }
  destruct (stream_error r) as [e|];
    (eexists _, {[_ := _]}, _; split; [apply Hsingle|]; intros st;
     rewrite <- set_files_insert_union; apply H).
Qed.

(** The only exception that leaves [download_file] is the [OSError] of
    the directory creation, which sits before the [try]. *)
Lemma download_file_raise_inv (w : world) (d : file_info) (out : Path)
    (token : option string) (verbose : bool) (st st' : proc) (e : exn) :
  download_file w d out token verbose st = (Raise e, st') ->
  exists m, e = OSError m
            /\ os_mkdir w (Pathlib.parent (out / rfilename d)%path) = Some m.
Proof.
  pose proof (download_file_cases w d out token verbose) as H. simpl in H.
  intros E.
  destruct (os_mkdir w _) as [m|].
  { rewrite H in E. inversion E. now exists m. }
  destruct (requests_get w _ _) as [e0|r].
  { rewrite H in E. discriminate. }
  destruct ((400 <=? status_code r) && (status_code r <? 600))%Z.
  { destruct H as [m H]. rewrite H in E. discriminate. }
  destruct (os_open w _) as [e0|].
  { rewrite H in E. discriminate. }
  destruct H as [(msg & content & _ & H)|[_ H]].
  { rewrite H in E. discriminate. }
  destruct (stream_error r); rewrite H in E; discriminate.
Qed.

Lemma append_cons (x : ascii) (a b : string) : String x a +:+ b = String x (a +:+ b).
Proof. reflexivity. Qed.

Lemma append_nil (b : string) : EmptyString +:+ b = b.
Proof. reflexivity. Qed.

Lemma startswith_append (a b : string) : Str.startswith (a +:+ b) a = true.
Proof.
  induction a as [|c a IH].
  - rewrite append_nil. now destruct b.
  - rewrite append_cons. simpl. now rewrite Ascii.eqb_refl.
Qed.

Lemma append_assoc (a b c : string) : (a +:+ b) +:+ c = a +:+ (b +:+ c).
Proof.
  induction a as [|x a IH]; [reflexivity|].
  rewrite !append_cons. now rewrite IH.
Qed.

Lemma failure_message_prefix (tag name cause : string) :
  Str.startswith (tag +:+ name +:+ " - " +:+ cause) (tag +:+ name +:+ " - ") = true.
Proof.
  replace (tag +:+ name +:+ " - " +:+ cause)
    with ((tag +:+ name +:+ " - ") +:+ cause).
  - apply startswith_append.
  - now rewrite !append_assoc.
Qed.

(** C2, as the code has it. Once the parent directory exists,
    [download_file] returns an outcome for the file and raises nothing.
    A [RequestException] from [requests.get], a 4xx or 5xx status, or a
    [RequestException] in the middle of the stream gives [success=False]
    with a message ["Failed: <file> - <cause>"]; an [OSError] on opening
    or writing the target gives [success=False] with
    ["IO Error: <file> - <cause>"]; any other status counts as success. *)
Theorem download_file_returns_outcome (w : world) (d : file_info) (out : Path)
    (token : option string) (verbose : bool) (st : proc) :
  os_mkdir w (Pathlib.parent (out / rfilename d)%path) = None ->
  let name := rfilename d in
  let p := (out / name)%path in
  let headers :=
    if truthy_opt token
    then [("Authorization", "Bearer " +:+ default EmptyString token)] else [] in
  exists ok msg st',
    download_file w d out token verbose st = (Ret (name, ok, msg), st')
    /\ (ok = false ->
        Str.startswith msg ("Failed: " +:+ name +:+ " - ") = true
        \/ Str.startswith msg ("IO Error: " +:+ name +:+ " - ") = true)
    /\ match requests_get w (url d) headers with
       | inl e => ok = false /\ msg = "Failed: " +:+ name +:+ " - " +:+ e
       | inr r =>
           if ((400 <=? status_code r) && (status_code r <? 600))%Z
           then ok = false
                /\ Str.startswith msg ("Failed: " +:+ name +:+ " - ") = true
           else
             match (open_wb w p ;; for_each (chunks r) (write w p)) st with
             | (Raise e, _) =>
                 ok = false /\ msg = "IO Error: " +:+ name +:+ " - " +:+ exn_str e
             | (Ret _, _) =>
                 match stream_error r with
                 | Some e => ok = false /\ msg = "Failed: " +:+ name +:+ " - " +:+ e
                 | None => ok = true
                 end
             end
       end.
Proof.
  intros Emk name p headers.
  pose proof (download_file_cases w d out token verbose) as H. simpl in H.
  rewrite Emk in H.
  fold name in H. fold p in H. fold headers in H.
  destruct (requests_get w (url d) headers) as [e|r].
  { eexists _, _, _. split; [apply H|]. split; [|split; reflexivity].
    intros _. left. apply failure_message_prefix. }
  destruct ((400 <=? status_code r) && (status_code r <? 600))%Z.
  { destruct H as [m H]. eexists _, _, _. split; [apply H|].
    split; [intros _; left|split; [reflexivity|]]; apply failure_message_prefix. }
  unfold bind at 1. unfold open_wb at 1.
  destruct (os_open w p) as [e|].
  { eexists _, _, _. split; [apply H|]. split; [|split; reflexivity].
    intros _. right. apply failure_message_prefix. }
  destruct H as [(msg & content & Hloop & H)|[Hloop H]].
  { rewrite Hloop by (simpl; apply lookup_insert_eq).
    eexists _, _, _. split; [apply H|]. split; [|split; reflexivity].
    intros _. right. apply failure_message_prefix. }
  rewrite Hloop by (simpl; apply lookup_insert_eq).
  destruct (stream_error r) as [e|].
  - eexists _, _, _. split; [apply H|]. split; [|split; reflexivity].
    intros _. left. apply failure_message_prefix.
  - eexists _, _, _. split; [apply H|]. split; [discriminate|reflexivity].
Qed.

Lemma download_file_returns_outcome_witness :
  exists ok msg st',
    download_file Scenario.missing (Scenario.entry "a.png") ["data"] None false fresh
    = (Ret ("a.png", ok, msg), st')
    /\ ok = false
    /\ Str.startswith msg "Failed: a.png - " = true.
Proof.
  destruct (download_file_returns_outcome Scenario.missing (Scenario.entry "a.png")
              ["data"] None false fresh eq_refl)
    as (ok & msg & st' & Hrun & _ & Hok & Hmsg).
  exists ok, msg, st'. repeat split; assumption.
Defined.

(** C2, as stated, fails on a status that is neither 2xx nor 4xx/5xx: a
    302 that [requests] does not follow passes [raise_for_status], the
    body is written and the outcome says success. *)
Lemma download_file_302_reports_success :
  (exists r,
     requests_get Scenario.found_elsewhere (url (Scenario.entry "a.png")) [] = inr r
     /\ status_code r = 302%Z)
  /\ fst (download_file Scenario.found_elsewhere (Scenario.entry "a.png")
            ["data"] None false fresh)
     = Ret ("a.png", true, EmptyString).
Proof. split; [eexists; split; reflexivity|reflexivity]. Qed.

(** * Where [download_file] writes *)

Lemma download_file_touches_only_target (w : world) (d : file_info) (out : Path)
    (token : option string) (verbose : bool) (st : proc) (k : Path) :
  files (snd (download_file w d out token verbose st)) !! k <> files st !! k ->
  k = (out / rfilename d)%path.
Proof.
  destruct (download_file_frame w d out token verbose) as (r & W & D & HW & Hrun).
  rewrite Hrun. simpl. intros Hk.
  destruct (decide (k = (out / rfilename d)%path)) as [->|Hne]; [reflexivity|].
  exfalso. apply Hk. rewrite lookup_union_r; [reflexivity|]. now apply HW.
Qed.

Lemma inside_app_nodots (root rest : Path) :
  inside root (root ++ rest) = true <-> ~ In ".." rest.
Proof.
  induction root as [|r root IH]; simpl.
  - rewrite forallb_forall. split.
    + intros H Hin. specialize (H _ Hin). now rewrite String.eqb_refl in H.
    + intros Hrest c Hc. apply negb_true_iff. apply String.eqb_neq.
      intros ->. now apply Hrest.
  - now rewrite String.eqb_refl.
Qed.

Lemma write_loop_ok (w : world) (p : Path) (body : list bytes) :
  (forall written chunk, os_write w p written chunk = None) ->
  forall (acc : bytes) (st : proc),
  files st !! p = Some acc ->
  for_each body (write w p) st
  = (Ret tt, set_files (insert p (acc ++ concat body)%list) st).
Proof.
  intros Hw. induction body as [|chunk body IH]; intros acc st Hst.
  - simpl. rewrite app_nil_r. unfold ret. f_equal. symmetry.
    apply set_files_id. now apply insert_id.
  - simpl for_each. unfold bind. unfold write at 1. rewrite Hst. simpl default.
    rewrite Hw. rewrite (IH (acc ++ chunk)%list).
    + rewrite set_files_insert_insert. now rewrite <- app_assoc.
    + simpl. apply lookup_insert_eq.
Qed.




(** * Running [download_file] again *)

Lemma lay_empty (st : proc) : lay ∅ ∅ st = st.
Proof. unfold lay. now rewrite set_dirs_union_empty, set_files_union_empty. Qed.

Lemma lay_lay (W1 W2 : gmap Path bytes) (D1 D2 : gset Path) (st : proc) :
  lay W2 D2 (lay W1 D1 st) = lay (W2 ∪ W1) (D2 ∪ D1) st.
Proof.
  unfold lay, set_files, set_dirs. simpl. f_equal.
  - apply (assoc (∪)).
  - apply (assoc_L (∪)).
Qed.

Lemma lay_idem (W : gmap Path bytes) (D : gset Path) (st : proc) :
  lay W D (lay W D st) = lay W D st.
Proof.
  rewrite lay_lay.
  replace (W ∪ W) with W by (symmetry; apply (idemp (∪))).
  replace (D ∪ D) with D by (symmetry; apply (idemp_L (∪))).
  reflexivity.
Qed.

Lemma files_lay (W : gmap Path bytes) (D : gset Path) (st : proc) :
  files (lay W D st) = W ∪ files st.
Proof. reflexivity. Qed.

Lemma run_workers_frame {A B} (task : A -> M B) :
  (forall x, exists r (W : gmap Path bytes) (D : gset Path),
      forall st, task x st = (r, lay W D st)) ->
  forall order, exists rs (W : gmap Path bytes) (D : gset Path),
      forall st, run_workers task order st = (Ret rs, lay W D st).
Proof.
  intros Htask. induction order as [|x order IH].
  - exists [], ∅, ∅. intros st. simpl. unfold ret. now rewrite lay_empty.
  - destruct (Htask x) as (r & W1 & D1 & Hx). destruct IH as (rs & W2 & D2 & Hrest).
    exists (r :: rs), (W2 ∪ W1), (D2 ∪ D1). intros st.
    simpl. unfold bind, run_future, ret. rewrite Hx, Hrest.
    now rewrite lay_lay.
Qed.

Lemma download_workers_frame (w : world) (out : Path) (token : option string)
    (verbose : bool) (order : list file_info) :
  exists rs (W : gmap Path bytes) (D : gset Path), forall st,
    run_workers (fun f => download_file w f out token verbose) order st
    = (Ret rs, lay W D st).
Proof.
  apply run_workers_frame. intros d.
  destruct (download_file_frame w d out token verbose) as (r & W & D & _ & H).
  now exists r, W, D.
Qed.

(** What a call returns, and what it lays over the disk, can be read off
    a run from the fresh state. *)
Lemma download_file_from_fresh (w : world) (d : file_info) (out : Path)
    (token : option string) (verbose : bool) (st : proc) :
  download_file w d out token verbose st
  = (fst (download_file w d out token verbose fresh),
     lay (files (snd (download_file w d out token verbose fresh)))
         (dirs (snd (download_file w d out token verbose fresh))) st).
Proof.
  destruct (download_file_frame w d out token verbose) as (r & W & D & _ & H).
  rewrite (H fresh), (H st). simpl.
  now rewrite (right_id ∅ (∪)), (right_id_L ∅ (∪)).
Qed.

Lemma download_file_laid_over (w : world) (d : file_info) (out : Path)
    (token : option string) (verbose : bool) (k : Path) :
  k <> (out / rfilename d)%path ->
  files (snd (download_file w d out token verbose fresh)) !! k = None.
Proof.
  destruct (download_file_frame w d out token verbose) as (r & W & D & HW & H).
  rewrite (H fresh). simpl. rewrite (right_id ∅ (∪)). apply HW.
Qed.

Lemma run_workers_from_fresh (w : world) (out : Path) (token : option string)
    (verbose : bool) (order : list file_info) (st : proc) :
  run_workers (fun f => download_file w f out token verbose) order st
  = (Ret (map (fun d => fst (download_file w d out token verbose fresh)) order),
     lay (foldr (fun d acc =>
                   acc ∪ files (snd (download_file w d out token verbose fresh)))
                ∅ order)
         (foldr (fun d acc =>
                   acc ∪ dirs (snd (download_file w d out token verbose fresh)))
                ∅ order)
         st).
Proof.
  revert st. induction order as [|d order IH]; intros st.
  - simpl. unfold ret. now rewrite lay_empty.
  - simpl. unfold bind, run_future, ret.
    rewrite download_file_from_fresh, IH. now rewrite lay_lay.
Qed.

Lemma laid_over_perm (w : world) (out : Path) (token : option string)
    (verbose : bool) (order1 order2 : list file_info) :
  Permutation order1 order2 ->
  NoDup (map (fun d => (out / rfilename d)%path) order1) ->
  foldr (fun d acc => acc ∪ files (snd (download_file w d out token verbose fresh)))
    ∅ order1
  = foldr (fun d acc => acc ∪ files (snd (download_file w d out token verbose fresh)))
      ∅ order2.
Proof.
  induction 1 as [|x l l' HP IH|x y l|l l' l'' HP1 IH1 HP2 IH2]; intros Hnd.
  - reflexivity.
  - simpl. rewrite IH; [reflexivity|]. simpl in Hnd. now apply NoDup_cons_1_2 in Hnd.
  - simpl. rewrite <- !(assoc (∪)). f_equal.
    apply map_union_comm. apply map_disjoint_spec. intros k a b Hx Hy.
    simpl in Hnd. apply NoDup_cons_1_1 in Hnd.
    destruct (decide (k = (out / rfilename x)%path)) as [->|Hk].
    + destruct (decide ((out / rfilename x)%path = (out / rfilename y)%path))
        as [Heq|Hne].
      * apply Hnd. rewrite <- Heq. now left.
      * rewrite download_file_laid_over in Hy by exact Hne. discriminate.
    + rewrite download_file_laid_over in Hx by exact Hk. discriminate.
  - rewrite IH1 by exact Hnd. apply IH2.
    pose proof (Permutation_map (fun d => (out / rfilename d)%path) HP1) as HPm.
    now rewrite <- HPm.
Qed.

Lemma dirs_made_perm (w : world) (out : Path) (token : option string)
    (verbose : bool) (order1 order2 : list file_info) :
  Permutation order1 order2 ->
  foldr (fun d acc => acc ∪ dirs (snd (download_file w d out token verbose fresh)))
    ∅ order1
  = foldr (fun d acc => acc ∪ dirs (snd (download_file w d out token verbose fresh)))
      ∅ order2.
Proof.
  induction 1 as [|x l l' HP IH|x y l|l l' l'' HP1 IH1 HP2 IH2].
  - reflexivity.
  - simpl. now rewrite IH.
  - simpl. rewrite <- !(assoc_L (∪)). f_equal. apply (comm_L (∪)).
  - now rewrite IH1.
Qed.

(** C7. A successful call leaves exactly the bytes of the response at
    [output_dir / rfilename], whatever was there before. Hence calling
    again in the same world gives the same outcome and the same disk, for
    one file and for a whole job; when the targets of the job are
    pairwise distinct this holds whatever the order in which the workers
    of either run complete. *)
Theorem download_overwrites_and_rerun_agrees (w : world) (out : Path)
    (token : option string) (verbose : bool) :
  (forall d st name msg st',
      download_file w d out token verbose st = (Ret (name, true, msg), st') ->
      exists r,
        requests_get w (url d)
          (if truthy_opt token
           then [("Authorization", "Bearer " +:+ default EmptyString token)] else [])
        = inr r
        /\ files st' !! (out / rfilename d)%path = Some (concat (chunks r)))
  /\ (forall d st,
        let once := download_file w d out token verbose st in
        download_file w d out token verbose (snd once) = once)
  /\ (forall order st,
        let job := run_workers (fun f => download_file w f out token verbose) order in
        job (snd (job st)) = job st)
  /\ (forall order1 order2 st,
        let job := run_workers (fun f => download_file w f out token verbose) in
        Permutation order1 order2 ->
        NoDup (map (fun d => (out / rfilename d)%path) order1) ->
        fst (job order2 (snd (job order1 st)))
        = Ret (map (fun d => fst (download_file w d out token verbose st)) order2)
        /\ snd (job order2 (snd (job order1 st))) = snd (job order1 st)).
Proof.
  split; [|split; [|split]].
  - intros d st name msg st' E.
    pose proof (download_file_cases w d out token verbose) as H. simpl in H.
    destruct (os_mkdir w _) as [m|].
    { rewrite H in E. discriminate. }
    destruct (requests_get w _ _) as [e|r].
    { rewrite H in E. discriminate. }
    destruct ((400 <=? status_code r) && (status_code r <? 600))%Z.
    { destruct H as [m H]. rewrite H in E. discriminate. }
    destruct (os_open w _) as [e|].
    { rewrite H in E. discriminate. }
    destruct H as [(m & content & _ & H)|[_ H]].
    { rewrite H in E. discriminate. }
    destruct (stream_error r) as [e|]; rewrite H in E; [discriminate|].
    exists r. split; [reflexivity|].
    inversion E. simpl. apply lookup_insert_eq.
  - intros d st once. subst once.
    destruct (download_file_frame w d out token verbose) as (r & W & D & _ & H).
    rewrite (H st). simpl. rewrite H. now rewrite lay_idem.
  - intros order st job. subst job.
    destruct (download_workers_frame w out token verbose order) as (rs & W & D & H).
    rewrite (H st). simpl. rewrite H. now rewrite lay_idem.
  - intros order1 order2 st job HP Hnd. subst job. cbv beta.
    rewrite !run_workers_from_fresh. simpl. split.
    + f_equal. apply map_ext. intros d.
      now rewrite (download_file_from_fresh w d out token verbose st).
    + rewrite <- (laid_over_perm w out token verbose order1 order2 HP Hnd).
      rewrite <- (dirs_made_perm w out token verbose order1 order2 HP).
      apply lay_idem.
Qed.

Lemma download_overwrites_and_rerun_agrees_witness :
  exists r,
    requests_get Scenario.calm (url (Scenario.entry "a.png")) [] = inr r
    /\ files (snd (download_file Scenario.calm (Scenario.entry "a.png")
                     ["data"] None false Scenario.stale)) !! ["data"; "a.png"]
       = Some (concat (chunks r)).
Proof.
  exact (proj1 (download_overwrites_and_rerun_agrees Scenario.calm ["data"] None false)
           (Scenario.entry "a.png") Scenario.stale "a.png" EmptyString
           (snd (download_file Scenario.calm (Scenario.entry "a.png")
                   ["data"] None false Scenario.stale))
           eq_refl).
Defined.

Example stale_file_is_replaced :
  files (snd (download_file Scenario.calm (Scenario.entry "a.png")
                ["data"] None false Scenario.stale)) !! ["data"; "a.png"]
  = Some [Byte.x68; Byte.x69; Byte.x21].
Proof. vm_compute. reflexivity. Qed.

(** * The coordinator loop *)

(** One turn of the loop on a future that holds an outcome: the counter
    of its kind goes up by one, and so does the progress bar when
    progress reporting is on, whether or not verbose is. *)
Lemma collect_outcomes_step (progress verbose : bool) (name : string) (ok : bool)
    (msg : string) (rest : list (res (string * bool * string)))
    (s f : nat) (st : proc) :
  (progress = true -> is_Some (progress_bar st)) ->
  exists st1,
    collect_outcomes progress verbose (Ret (name, ok, msg) :: rest) s f st
    = collect_outcomes progress verbose rest
        (if ok then S s else s) (if ok then f else S f) st1
    /\ files st1 = files st
    /\ progress_bar st1
       = (if progress then (fun n => n + 1)%nat <$> progress_bar st
          else progress_bar st).
Proof.
  intros Hbar. simpl. unfold bind, future_result, lift, when.
  destruct progress.
  - destruct (Hbar eq_refl) as [n Hn].
    destruct ok, (Str.truthy msg); unfold ret, print, tqdm_update; simpl;
      rewrite Hn; simpl; eexists; (split; [reflexivity|]); simpl;
      (split; reflexivity).
  - destruct ok, (Str.truthy msg), verbose; unfold ret, print; simpl;
      eexists; (split; [reflexivity|]); simpl; (split; reflexivity).
Qed.

(** The whole loop: it takes the outcomes of the futures up to the first
    one that holds an exception (all of them if none does), counts each
    once as a success or as a failure, and ticks the progress bar once
    for each when progress reporting is on. *)
Lemma collect_outcomes_spec (progress verbose : bool)
    (futures : list (res (string * bool * string))) :
  forall (s f : nat) (st : proc),
  (progress = true -> is_Some (progress_bar st)) ->
  exists outcomes rest st',
    futures = (map Ret outcomes ++ rest)%list
    /\ files st' = files st
    /\ progress_bar st'
       = (if progress then (fun n => n + length outcomes)%nat <$> progress_bar st
          else progress_bar st)
    /\ ((rest = []
         /\ collect_outcomes progress verbose futures s f st
            = (Ret ((s + length (List.filter (fun o => snd (fst o)) outcomes))%nat,
                    (f + length (List.filter (fun o => negb (snd (fst o))) outcomes))%nat),
               st'))
        \/ (exists e rest',
              rest = Raise e :: rest'
              /\ collect_outcomes progress verbose futures s f st = (Raise e, st'))).
Proof.
  induction futures as [|future futures IH]; intros s f st Hbar.
  - exists [], [], st. simpl. repeat split.
    + destruct progress; [|reflexivity].
      destruct (progress_bar st); simpl; [f_equal; lia|reflexivity].
    + left. split; [reflexivity|]. unfold ret. repeat f_equal; lia.
  - destruct future as [[[name ok] msg]|e].
    + destruct (collect_outcomes_step progress verbose name ok msg futures s f st Hbar)
        as (st1 & Hstep & Hfiles & Hticks).
      assert (Hbar1 : progress = true -> is_Some (progress_bar st1)).
      { intros ->. rewrite Hticks. destruct (Hbar eq_refl) as [n ->]. now eexists. }
      destruct (IH (if ok then S s else s) (if ok then f else S f) st1 Hbar1)
        as (outcomes & rest & st' & Hsplit & Hfiles' & Hticks' & Hend).
      exists ((name, ok, msg) :: outcomes), rest, st'. repeat split.
      * simpl. now rewrite Hsplit.
      * congruence.
      * rewrite Hticks', Hticks. destruct progress; [|reflexivity].
        destruct (progress_bar st); simpl; [f_equal; lia|reflexivity].
      * rewrite Hstep. destruct Hend as [[-> Hret]|(e & rest' & -> & Hraise)].
        -- left. split; [reflexivity|]. rewrite Hret.
           destruct ok; simpl; repeat f_equal; lia.
        -- right. now exists e, rest'.
    + exists [], (Raise e :: futures), st. simpl. repeat split.
      * destruct progress; [|reflexivity].
        destruct (progress_bar st); simpl; [f_equal; lia|reflexivity].
      * right. now exists e, futures.
Qed.

(** With progress reporting on, the loop ticks the bar exactly once for
    each outcome it takes, success or failure, with verbose on or off:
    from a new bar, the count after the loop is the number of outcomes
    taken, which is every future when none holds an exception and the
    ones before the first exception otherwise. *)
Theorem progress_ticks_once_per_outcome (verbose : bool)
    (futures : list (res (string * bool * string))) (st : proc) :
  let run := (tqdm_create ;; collect_outcomes true verbose futures 0 0) st in
  exists outcomes rest,
    futures = (map Ret outcomes ++ rest)%list
    /\ progress_bar (snd run) = Some (length outcomes)
    /\ match fst run with
       | Ret (success_count, fail_count) =>
           rest = [] /\ (success_count + fail_count = length outcomes)%nat
       | Raise e => exists rest', rest = Raise e :: rest'
       end.
Proof.
  intros run.
  set (st0 := {| files := files st; dirs := dirs st; stdout := stdout st;
                 progress_bar := Some O |}).
  assert (Hrun : run = collect_outcomes true verbose futures 0 0 st0) by reflexivity.
  rewrite Hrun. clear Hrun run.
  destruct (collect_outcomes_spec true verbose futures 0 0 st0)
    as (outcomes & rest & st' & Hsplit & _ & Hticks & Hend).
  { intros _. now exists O. }
  exists outcomes, rest. split; [exact Hsplit|].
  destruct Hend as [[-> Hret]|(e & rest' & -> & Hraise)].
  - rewrite Hret. simpl. split; [exact Hticks|]. split; [reflexivity|].
    clear. induction outcomes as [|[[name ok] msg] outcomes IH]; simpl; [reflexivity|].
    destruct ok; simpl; lia.
  - rewrite Hraise. simpl. split; [exact Hticks|]. now exists rest'.
Qed.

Example progress_with_verbose :
  progress_bar
    (snd ((tqdm_create ;;
           collect_outcomes true true
             [Ret ("a.png", true, "Downloaded: a.png");
              Ret ("b.json", false, "Failed: b.json - 404")] 0 0) fresh))
  = Some 2%nat.
Proof. reflexivity. Qed.

(** C8. The job of C1 with [--progress]: the download of [a.png]
    completes, with a successful outcome and the file written, but the
    call for [sub/b.json] has raised and is collected first, so the loop
    is left before the outcome of [a.png] is taken: the bar, created at
    0, is never ticked for it. *)
Theorem progress_bar_misses_a_completed_outcome :
  fst (download_file (Scenario.blocked ["a.png"; "sub/b.json"]) (Scenario.entry "a.png")
         ["data"] None false fresh)
  = Ret ("a.png", true, EmptyString)
  /\ fst (run_main (Scenario.blocked ["a.png"; "sub/b.json"]) Scenario.with_progress fresh)
     = Uncaught (OSError "[Errno 17] File exists: 'data/sub'")
  /\ files (snd (run_main (Scenario.blocked ["a.png"; "sub/b.json"])
                   Scenario.with_progress fresh)) !! ["data"; "a.png"]
     = Some [Byte.x68; Byte.x69; Byte.x21]
  /\ progress_bar (snd (run_main (Scenario.blocked ["a.png"; "sub/b.json"])
                          Scenario.with_progress fresh))
     = Some 0%nat.
Proof. repeat split; vm_compute; reflexivity. Qed.

(** C1. A job of two files in which [data/sub] cannot be created: the
    call for [sub/b.json] raises, [future.result()] raises it again in
    the loop, and [main] ends on the uncaught [OSError] without printing
    any summary. *)
Theorem main_aborts_when_a_worker_raises :
  fst (run_main (Scenario.blocked ["a.png"; "sub/b.json"]) Scenario.args fresh)
  = Uncaught (OSError "[Errno 17] File exists: 'data/sub'")
  /\ stdout (snd (run_main (Scenario.blocked ["a.png"; "sub/b.json"]) Scenario.args fresh))
     = ["Fetching file list from 'u/d'..."; "Found 2 file(s) to download."].
Proof. split; vm_compute; reflexivity. Qed.

(** * [main] and how the process ends *)

Lemma returns_ret {A} (a : A) : returns (ret a).
Proof. intros st. now exists a, st. Qed.

Lemma returns_print (s : string) : returns (print s).
Proof. intros st. unfold print. now eexists _, _. Qed.

Lemma returns_bind {A B} (m : M A) (k : A -> M B) :
  returns m -> (forall a, returns (k a)) -> returns (bind m k).
Proof.
  intros Hm Hk st. destruct (Hm st) as (a & st1 & E).
  destruct (Hk a st1) as (b & st2 & E2).
  exists b, st2. unfold bind. now rewrite E.
Qed.

Lemma returns_when (b : bool) (m : M unit) : returns m -> returns (when b m).
Proof. intros Hm. destruct b; [exact Hm|apply returns_ret]. Qed.

Lemma returns_for_each {A} (l : list A) (body : A -> M unit) :
  (forall x, returns (body x)) -> returns (for_each l body).
Proof.
  intros Hbody. induction l as [|x l IH]; simpl.
  - apply returns_ret.
  - apply returns_bind; [apply Hbody|intros _; exact IH].
Qed.

Lemma returns_tqdm_create : returns tqdm_create.
Proof. intros st. unfold tqdm_create. now eexists _, _. Qed.

Lemma returns_tqdm_close : returns tqdm_close.
Proof. apply returns_ret. Qed.

Lemma returns_run_future {A} (m : M A) : returns (run_future m).
Proof.
  intros st. unfold run_future. destruct (m st) as [r st1]. now exists r, st1.
Qed.

Lemma returns_run_workers {A B} (task : A -> M B) (order : list A) :
  returns (run_workers task order).
Proof.
  induction order as [|x order IH]; simpl.
  - apply returns_ret.
  - apply returns_bind; [apply returns_run_future|]. intros future.
    apply returns_bind; [exact IH|]. intros futures. apply returns_ret.
Qed.

Create HintDb returns.
#[export] Hint Resolve returns_ret returns_print returns_bind returns_when
  returns_for_each returns_tqdm_create returns_tqdm_close returns_run_future
  returns_run_workers : returns.

Lemma returns_no_raise {A} (m : M A) (st st' : proc) (e : exn) :
  returns m -> m st = (Raise e, st') -> False.
Proof. intros Hm E. destruct (Hm st) as (a & st1 & E1). congruence. Qed.

Lemma bind_raise_inv {A B} (m : M A) (k : A -> M B) (st st' : proc) (e : exn) :
  bind m k st = (Raise e, st') ->
  m st = (Raise e, st') \/ exists a st1, m st = (Ret a, st1) /\ k a st1 = (Raise e, st').
Proof.
  unfold bind. destruct (m st) as [[a|e0] st1]; intros E.
  - right. now exists a, st1.
  - left. inversion E. reflexivity.
Qed.

Lemma bind_ret_inv {A B} (m : M A) (k : A -> M B) (st st' : proc) (b : B) :
  bind m k st = (Ret b, st') ->
  exists a st1, m st = (Ret a, st1) /\ k a st1 = (Ret b, st').
Proof.
  unfold bind. destruct (m st) as [[a|e0] st1]; intros E.
  - now exists a, st1.
  - discriminate.
Qed.

Lemma bind_ret_eq {A B} (m : M A) (k : A -> M B) (st st1 : proc) (a : A) :
  m st = (Ret a, st1) -> bind m k st = k a st1.
Proof. intros E. unfold bind. now rewrite E. Qed.

Lemma bind_raise_eq {A B} (m : M A) (k : A -> M B) (st st1 : proc) (e : exn) :
  m st = (Raise e, st1) -> bind m k st = (Raise e, st1).
Proof. intros E. unfold bind. now rewrite E. Qed.

(** [list_dataset_files]: every failure of the listing ends in
    [sys.exit(1)], and nothing else does. *)
Lemma list_dataset_files_fails (w : world) (dataset : string) (token : option string)
    (err : api_error) (st : proc) :
  list_repo_files w dataset token = inl err ->
  fst (list_dataset_files w dataset token st) = Raise (SystemExit 1).
Proof.
  intros L. unfold list_dataset_files, try_except, bind. rewrite L.
  destruct err; reflexivity.
Qed.

Lemma list_dataset_files_lists (w : world) (dataset : string) (token : option string)
    (names : list string) (st : proc) :
  list_repo_files w dataset token = inr names ->
  list_dataset_files w dataset token st
  = (Ret (collect_file_infos w dataset names []), st).
Proof.
  intros L. unfold list_dataset_files, try_except, bind. now rewrite L.
Qed.

Lemma filter_files_dict_raise_inv (files : list file_info) (extensions : option string)
    (limit : option Z) (e : exn) :
  filter_files files extensions limit = Raise e -> forall c, e <> SystemExit c.
Proof.
  unfold filter_files. destruct (truthy_opt extensions); [|discriminate].
  assert (H : forall l, keep_matching files l = Raise e -> forall c, e <> SystemExit c).
  { intros l. induction files as [|f files IH]; simpl; [discriminate|].
    destruct (any_endswith f l) as [keep|e0] eqn:Ea.
    - destruct (keep_matching files l) as [kept|e1]; [discriminate|].
      exact IH.
    - intros E c. inversion E; subst e0.
      destruct l as [|ext rest]; simpl in Ea; [discriminate|].
      unfold getattr_rfilename, dict_getattr in Ea. inversion Ea. discriminate. }
  destruct (keep_matching files _) as [kept|e0] eqn:Ek; [discriminate|].
  intros E. inversion E; subst e0. exact (H _ Ek).
Qed.

Lemma collect_outcomes_raise_inv (progress verbose : bool)
    (futures : list (res (string * bool * string))) :
  forall (s f : nat) (st st' : proc) (e : exn),
  collect_outcomes progress verbose futures s f st = (Raise e, st') ->
  In (Raise e) futures \/ exists m, e = OtherException m.
Proof.
  induction futures as [|future futures IH]; intros s f st st' e E.
  - discriminate.
  - destruct future as [[[name ok] msg]|e0].
    + simpl in E. unfold bind at 1 in E. unfold future_result, lift in E.
      apply bind_raise_inv in E. destruct E as [E|(counts & st1 & _ & E)].
      { exfalso. destruct ok.
        - discriminate.
        - revert E. apply returns_no_raise. auto with returns. }
      apply bind_raise_inv in E. destruct E as [E|(u & st2 & _ & E)].
      { destruct progress.
        - unfold tqdm_update in E. destruct (progress_bar st1); [discriminate|].
          inversion E. right. now eexists.
        - exfalso. revert E. apply returns_no_raise. auto with returns. }
      apply IH in E. destruct E as [E|E]; [left; now right|now right].
    + simpl in E. unfold bind, future_result, lift in E. inversion E. subst.
      left. now left.
Qed.

Lemma run_workers_raise_inv {A B} (task : A -> M B) (order : list A) :
  forall (st st' : proc) (futures : list (res B)) (e : exn),
  run_workers task order st = (Ret futures, st') ->
  In (Raise e) futures ->
  exists x st1 st2, task x st1 = (Raise e, st2).
Proof.
  induction order as [|x order IH]; intros st st' futures e E Hin.
  - inversion E. subst. contradiction.
  - simpl in E. apply bind_ret_inv in E. destruct E as (future & st1 & Ex & E).
    apply bind_ret_inv in E. destruct E as (rest & st2 & Erest & E).
    inversion E. subst. destruct Hin as [->|Hin].
    + unfold run_future in Ex. destruct (task x st) as [r st0] eqn:Et.
      inversion Ex. subst. now exists x, st, st1.
    + eapply IH; eassumption.
Qed.

Lemma bind_returns_raise_inv {A B} (m : M A) (k : A -> M B) (st st' : proc) (e : exn) :
  returns m -> bind m k st = (Raise e, st') ->
  exists a st1, k a st1 = (Raise e, st').
Proof.
  intros Hm E. apply bind_raise_inv in E. destruct E as [E|(a & st1 & _ & E)].
  - exfalso. revert E. now apply returns_no_raise.
  - now exists a, st1.
Qed.

Ltac no_raise H :=
  exfalso; revert H; apply returns_no_raise; auto 20 with returns.

Ltac step H :=
  apply bind_raise_inv in H;
  let a := fresh "a" in
  let st := fresh "st" in
  let E := fresh "E" in
  destruct H as [H|(a & st & E & H)].

Tactic Notation "step_as" hyp(H) ident(a) ident(E) :=
  apply bind_raise_inv in H;
  let st := fresh "st" in
  destruct H as [H|(a & st & E & H)].

(** Every way in which [main] can raise. After a failed listing it is
    [sys.exit(1)]; after a successful one it is [sys.exit(0)] or an
    exception that is not a [SystemExit]. *)
Lemma main_raise_inv (w : world) (args : arguments) (st st' : proc) (e : exn) :
  main w args st = (Raise e, st') ->
  match list_repo_files w (args_dataset args) (get_token w (args_token args)) with
  | inl _ => e = SystemExit 1
  | inr _ => e = SystemExit 0 \/ forall c, e <> SystemExit c
  end.
Proof.
  unfold main. intros H.
  step H; [no_raise H|].
  step H; [no_raise H|].
  destruct (list_repo_files w (args_dataset args) (get_token w (args_token args)))
    as [err|names] eqn:L.
  { pose proof (list_dataset_files_fails w _ _ err st1 L) as F.
    step_as H infos Einfos.
    - rewrite H in F. simpl in F. now inversion F.
    - rewrite Einfos in F. discriminate. }
  rewrite (bind_ret_eq _ _ _ _ _ (list_dataset_files_lists w _ _ names st1 L)) in H.
  step H.
  { left. destruct (collect_file_infos _ _ _ _); unfold when in H; [|discriminate].
    apply bind_returns_raise_inv in H; [|auto with returns].
    destruct H as (u & st3 & H). now inversion H. }
  step_as H files Efiles.
  { right. unfold lift in H. inversion H. eapply filter_files_dict_raise_inv; eassumption. }
  step H.
  { left. destruct files; unfold when in H; [|discriminate].
    apply bind_returns_raise_inv in H; [|auto with returns].
    destruct H as (u & st5 & H). now inversion H. }
  step H; [no_raise H|].
  step H.
  { left. destruct (args_dry_run args); unfold when in H; [|discriminate].
    apply bind_returns_raise_inv in H; [|auto with returns].
    destruct H as (u & st7 & H).
    apply bind_returns_raise_inv in H; [|auto with returns].
    destruct H as (u' & st8 & H). now inversion H. }
  step H.
  { right. unfold mkdir in H. destruct (os_mkdir w _); inversion H. discriminate. }
  step H.
  { exfalso. revert H. apply returns_no_raise.
    destruct (args_progress args), (tqdm_installed w); auto 20 with returns. }
  step H.
  { right. unfold thread_pool_executor in H.
    destruct (args_threads args <=? 0)%Z; inversion H. discriminate. }
  step_as H futures Efutures; [no_raise H|].
  step H.
  { right. apply collect_outcomes_raise_inv in H. destruct H as [H|[m ->]]; [|discriminate].
    destruct (run_workers_raise_inv _ _ _ _ _ _ Efutures H) as (d & sta & stb & Hd).
    apply download_file_raise_inv in Hd. destruct Hd as (m & -> & _). discriminate. }
  no_raise H.
Qed.

Lemma main_ret_inv (w : world) (args : arguments) (st st' : proc) (u : unit) :
  main w args st = (Ret u, st') ->
  exists names,
    list_repo_files w (args_dataset args) (get_token w (args_token args)) = inr names.
Proof.
  unfold main. intros H.
  apply bind_ret_inv in H. destruct H as (u1 & st1 & _ & H).
  apply bind_ret_inv in H. destruct H as (u2 & st2 & _ & H).
  apply bind_ret_inv in H. destruct H as (files & st3 & E & _).
  destruct (list_repo_files w _ _) as [err|names] eqn:L; [|now exists names].
  pose proof (list_dataset_files_fails w _ _ err st2 L) as F.
  rewrite E in F. discriminate.
Qed.

Lemma fst_bind_returns {A B} (m : M A) (k : A -> M B) (st : proc) (r : res B) :
  returns m -> (forall a st1, fst (k a st1) = r) -> fst (bind m k st) = r.
Proof.
  intros Hm Hk. destruct (Hm st) as (a & st1 & E).
  rewrite (bind_ret_eq _ _ _ _ _ E). apply Hk.
Qed.

Lemma main_after_failed_listing (w : world) (args : arguments) (st : proc)
    (err : api_error) :
  list_repo_files w (args_dataset args) (get_token w (args_token args)) = inl err ->
  fst (main w args st) = Raise (SystemExit 1).
Proof.
  intros L. unfold main.
  apply fst_bind_returns; [auto 20 with returns|]. intros u1 st1.
  apply fst_bind_returns; [auto with returns|]. intros u2 st2.
  pose proof (list_dataset_files_fails w _ _ err st2 L) as F.
  destruct (list_dataset_files w _ _ st2) as [r st3] eqn:E. simpl in F. subst r.
  now rewrite (bind_raise_eq _ _ _ _ _ E).
Qed.

Lemma main_when_nothing_is_left (w : world) (args : arguments) (st : proc)
    (names : list string) :
  list_repo_files w (args_dataset args) (get_token w (args_token args)) = inr names ->
  filter_files (collect_file_infos w (args_dataset args) names [])
    (args_filter args) (args_limit args) = Ret [] ->
  fst (main w args st) = Raise (SystemExit 0).
Proof.
  intros L F. unfold main.
  apply fst_bind_returns; [auto 20 with returns|]. intros u1 st1.
  apply fst_bind_returns; [auto with returns|]. intros u2 st2.
  rewrite (bind_ret_eq _ _ _ _ _ (list_dataset_files_lists w _ _ names st2 L)).
  destruct (collect_file_infos w (args_dataset args) names []) as [|i infos].
  - reflexivity.
  - unfold when at 1. unfold bind at 1. unfold ret at 1.
    unfold bind at 1. unfold lift at 1. rewrite F. reflexivity.
Qed.

(** C6, as the code has it. [sys.exit(1)] is reached exactly when the
    manifest listing fails. Every other exit the program takes itself has
    code 0: an empty listing, nothing left after filtering, a dry run;
    and when [main] returns after the job, whatever the outcomes were, the
    listing had succeeded and the status is 0. *)
Theorem exit_status_of_main (w : world) (args : arguments) (st : proc) :
  let listed := list_repo_files w (args_dataset args) (get_token w (args_token args)) in
  let t := fst (run_main w args st) in
  (t = Exited 1 <-> exists err, listed = inl err)
  /\ (forall c, t = Exited c -> c = 0%Z \/ c = 1%Z)
  /\ (t = Completed -> exit_status t = 0%Z /\ exists names, listed = inr names)
  /\ (forall names,
        listed = inr names ->
        filter_files (collect_file_infos w (args_dataset args) names [])
          (args_filter args) (args_limit args) = Ret [] ->
        t = Exited 0).
Proof.
  intros listed t. subst t. unfold run_main.
  destruct (main w args st) as [r st'] eqn:E. simpl.
  pose proof (main_raise_inv w args st) as Hraise.
  pose proof (main_ret_inv w args st) as Hret.
  pose proof (main_after_failed_listing w args st) as Hfail.
  pose proof (main_when_nothing_is_left w args st) as Hnone.
  rewrite E in Hfail, Hnone. simpl in Hfail, Hnone.
  fold listed in Hraise, Hret, Hfail, Hnone.
  split; [split|split; [|split]].
  - intros Ht. destruct r as [u|e]; [discriminate|].
    specialize (Hraise st' e E).
    destruct listed as [err|names]; [now exists err|].
    destruct e; try discriminate. inversion Ht; subst.
    destruct Hraise as [Hc|Hc]; [discriminate|]. now destruct (Hc 1%Z).
  - intros [err Herr]. now rewrite (Hfail err Herr).
  - intros c Ht. destruct r as [u|e]; [discriminate|].
    specialize (Hraise st' e E).
    destruct e; try discriminate. inversion Ht; subst.
    destruct listed as [err|names].
    + inversion Hraise. now right.
    + destruct Hraise as [Hc|Hc]; [inversion Hc; now left|now destruct (Hc c)].
  - intros Ht. split; [now rewrite Ht|].
    destruct r as [u|e].
    + exact (Hret st' u E).
    + destruct e; discriminate.
  - intros names Hl Hf. now rewrite (Hnone names Hl Hf).
Qed.

(** C6, as stated, fails: with [--limit -1] on a one-file repository
    nothing is left after filtering, and the program exits with code 0. *)
Lemma main_exits_zero_when_nothing_matches :
  filter_files
    (collect_file_infos (Scenario.listing ["a.png"]) "u/d" ["a.png"] [])
    (args_filter (Scenario.with_limit (-1))) (args_limit (Scenario.with_limit (-1)))
  = Ret []
  /\ fst (run_main (Scenario.listing ["a.png"]) (Scenario.with_limit (-1)) fresh)
     = Exited 0
  /\ exit_status (fst (run_main (Scenario.listing ["a.png"])
                         (Scenario.with_limit (-1)) fresh)) = 0%Z.
Proof. repeat split. Qed.

Lemma exit_status_of_main_witness :
  fst (run_main (Scenario.listing ["a.png"]) (Scenario.with_limit (-1)) fresh) = Exited 0.
Proof.
  apply (proj2 (proj2 (proj2
           (exit_status_of_main (Scenario.listing ["a.png"])
              (Scenario.with_limit (-1)) fresh))) ["a.png"]);
    reflexivity.
Defined.

(** * The job as a whole *)

(** [as_completed] yields every submitted future once. *)
Lemma nth_remove_nth_perm {A} (l : list A) (i : nat) (x : A) :
  (i < length l)%nat -> Permutation (nth i l x :: remove_nth i l) l.
Proof.
  revert i. induction l as [|y l IH]; intros i Hi; simpl in Hi; [lia|].
  destruct i as [|i]; simpl.
  - reflexivity.
  - rewrite perm_swap. constructor. apply IH. lia.
Qed.

Lemma length_remove_nth {A} (l : list A) (i : nat) :
  (i < length l)%nat -> length (remove_nth i l) = (length l - 1)%nat.
Proof.
  revert i. induction l as [|y l IH]; intros i Hi; simpl in Hi; [lia|].
  destruct i as [|i]; simpl; [lia|].
  rewrite IH by lia. destruct l; simpl in *; lia.
Qed.

Lemma as_completed_perm {A} (fuel : nat) :
  forall (picks : list nat) (pending : list A),
  length pending = fuel -> Permutation (as_completed picks fuel pending) pending.
Proof.
  induction fuel as [|fuel IH]; intros picks pending Hlen.
  - destruct pending; [reflexivity|discriminate].
  - destruct pending as [|x pending]; [discriminate|].
    cbn [as_completed].
    set (i := (hd O picks mod length (x :: pending))%nat).
    assert (Hi : (i < length (x :: pending))%nat).
    { subst i. apply Nat.mod_upper_bound. simpl. lia. }
    rewrite IH.
    + now apply nth_remove_nth_perm.
    + rewrite length_remove_nth by exact Hi. simpl in *. lia.
Qed.

Lemma completion_order_perm {A} (w : world) (submitted : list A) :
  Permutation (completion_order w submitted) submitted.
Proof. now apply as_completed_perm. Qed.

(** When no directory creation fails every future holds an outcome, the
    one of its own file. *)
Lemma worker_returns (w : world) (d : file_info) (out : Path)
    (token : option string) (verbose : bool) (st : proc) :
  os_mkdir w (Pathlib.parent (out / rfilename d)%path) = None ->
  exists ok msg st',
    download_file w d out token verbose st = (Ret (rfilename d, ok, msg), st')
    /\ stdout st' = stdout st /\ progress_bar st' = progress_bar st.
Proof.
  intros Emk.
  pose proof (download_file_cases w d out token verbose) as H. simpl in H.
  rewrite Emk in H.
  destruct (requests_get w _ _) as [e|r].
  { eexists _, _, _. split; [apply H|]. now split. }
  destruct ((400 <=? status_code r) && (status_code r <? 600))%Z.
  { destruct H as [m H]. eexists _, _, _. split; [apply H|]. now split. }
  destruct (os_open w _) as [e|].
  { eexists _, _, _. split; [apply H|]. now split. }
  destruct H as [(msg & content & _ & H)|[_ H]].
  { eexists _, _, _. split; [apply H|]. now split. }
  destruct (stream_error r) as [e|];
    (eexists _, _, _; split; [apply H|]; now split).
Qed.

Lemma download_workers_return (w : world) (out : Path) (token : option string)
    (verbose : bool) (order : list file_info) :
  (forall p, os_mkdir w p = None) ->
  forall st, exists outcomes st',
    run_workers (fun f => download_file w f out token verbose) order st
    = (Ret (map Ret outcomes), st')
    /\ map (fun o => fst (fst o)) outcomes = map rfilename order
    /\ stdout st' = stdout st /\ progress_bar st' = progress_bar st.
Proof.
  intros Hmk. induction order as [|d order IH]; intros st.
  - exists [], st. now repeat split.
  - destruct (worker_returns w d out token verbose st (Hmk _))
      as (ok & msg & st1 & Hd & Hout & Hbar).
    destruct (IH st1) as (outcomes & st' & Hrest & Hnames & Hout' & Hbar').
    exists ((rfilename d, ok, msg) :: outcomes), st'.
    split; [|split; [|split]].
    + simpl. unfold bind, run_future, ret. now rewrite Hd, Hrest.
    + simpl. now rewrite Hnames.
    + congruence.
    + congruence.
Qed.

Lemma bind_returns_elim {A B} (m : M A) (k : A -> M B) (st : proc)
    (P : res B * proc -> Prop) :
  returns m -> (forall a st1, P (k a st1)) -> P (bind m k st).
Proof.
  intros Hm Hk. destruct (Hm st) as (a & st1 & E).
  rewrite (bind_ret_eq _ _ _ _ _ E). apply Hk.
Qed.

Ltac skip_returning :=
  match goal with
  | |- context [bind ?m ?k ?st] =>
      pattern (bind m k st); apply bind_returns_elim;
      [auto 20 with returns|intros ? ?; cbv beta]
  end.

Lemma collect_outcomes_all_ret (progress verbose : bool)
    (outcomes : list (string * bool * string)) :
  forall (s f : nat) (st : proc),
  (progress = true -> is_Some (progress_bar st)) ->
  exists st',
    collect_outcomes progress verbose (map Ret outcomes) s f st
    = (Ret ((s + length (List.filter (fun o => snd (fst o)) outcomes))%nat,
            (f + length (List.filter (fun o => negb (snd (fst o))) outcomes))%nat),
       st').
Proof.
  intros s f st Hbar.
  destruct (collect_outcomes_spec progress verbose (map Ret outcomes) s f st Hbar)
    as (outcomes' & rest & st' & Hsplit & _ & _ & Hend).
  destruct Hend as [[-> Hret]|(e & rest' & -> & _)].
  - rewrite app_nil_r in Hsplit.
    assert (outcomes' = outcomes) as ->.
    { clear -Hsplit. revert outcomes' Hsplit.
      induction outcomes as [|o outcomes IH]; intros [|o' outcomes'] H;
        simpl in H; try discriminate; [reflexivity|].
      inversion H. f_equal. now apply IH. }
    now exists st'.
  - exfalso. clear -Hsplit. revert outcomes' Hsplit.
    induction outcomes as [|o outcomes IH]; intros [|o' outcomes'] H;
      simpl in H; try discriminate.
    inversion H. eapply IH; eassumption.
Qed.

Lemma filter_files_nil {A} `{HasRfilename A} (extensions : option string)
    (limit : option Z) :
  filter_files (@nil A) extensions limit = Ret [].
Proof.
  unfold filter_files. destruct (truthy_opt extensions); simpl;
    destruct (truthy_int limit); try reflexivity;
    unfold slice_to; destruct (0 <=? default 0%Z limit)%Z; now rewrite firstn_nil.
Qed.

Lemma filter_split_length {A} (p : A -> bool) (l : list A) :
  (length (List.filter p l) + length (List.filter (fun x => negb (p x)) l))%nat
  = length l.
Proof.
  induction l as [|x l IH]; simpl; [reflexivity|].
  destruct (p x); simpl; lia.
Qed.


(** * Further properties of the program *)

(** ** [get_output_dir] *)

Lemma split_without_separator (s : string) :
  Str.split "/" (Str.replace "/" "_" s) = [Str.replace "/" "_" s].
Proof.
  induction s as [|c s IH]; [reflexivity|].
  simpl. destruct (Ascii.eqb c "/") eqn:Ec.
  - simpl. now rewrite IH.
  - rewrite Ec. now rewrite IH.
Qed.

Lemma splitroot_replaced (s : string) :
  Pathlib.splitroot (Str.replace "/" "_" s) = (EmptyString, Str.replace "/" "_" s).
Proof.
  destruct s as [|c s]; [reflexivity|].
  simpl. destruct (Ascii.eqb c "/") eqn:Ec; [reflexivity|].
  apply Ascii.eqb_neq in Ec.
  destruct c as [[] [] [] [] [] [] [] []]; try reflexivity. now destruct Ec.
Qed.

Lemma replaced_has_no_separator (s : string) :
  ~ In "/"%char (list_ascii_of_string (Str.replace "/" "_" s)).
Proof.
  induction s as [|c s IH]; simpl; [tauto|].
  intros [H|H]; [|now apply IH].
  destruct (Ascii.eqb c "/") eqn:Ec; [discriminate|].
  apply Ascii.eqb_neq in Ec. now apply Ec.
Qed.

Lemma keep_component_false (x : string) :
  Pathlib.keep_component x = false <-> x = EmptyString \/ x = ".".
Proof.
  unfold Pathlib.keep_component. destruct x as [|c x].
  - split; [now left|reflexivity].
  - change (Str.truthy (String c x)) with true. rewrite Bool.andb_true_l.
    rewrite negb_false_iff, String.eqb_eq. split.
    + intros H. now right.
    + intros [H|H]; [discriminate|exact H].
Qed.

(** X1. With no [--output], or an empty one, the output directory is the
    dataset name with every slash replaced by an underscore, taken as a
    single relative path component, which holds no slash; it is the empty
    path, the working directory itself, exactly when that name is empty
    or a single dot. It is never absolute and never nested, but it is the
    parent directory when the dataset is [".."]. A non-empty [--output]
    is parsed as it is. *)
Theorem get_output_dir_default_is_flat (dataset : string) :
  let flat := Str.replace "/" "_" dataset in
  (flat = EmptyString \/ flat = "." -> get_output_dir dataset None = [])
  /\ (flat <> EmptyString -> flat <> "." -> get_output_dir dataset None = [flat])
  /\ ~ In "/"%char (list_ascii_of_string flat)
  /\ Pathlib.is_absolute (get_output_dir dataset None) = false
  /\ get_output_dir dataset (Some EmptyString) = get_output_dir dataset None
  /\ forall c o, get_output_dir dataset (Some (String c o)) = Pathlib.parse (String c o).
Proof.
  intros flat.
  assert (E : get_output_dir dataset None
              = List.filter Pathlib.keep_component [flat]).
  { unfold get_output_dir, Pathlib.parse. fold flat.
    unfold flat at 1. rewrite splitroot_replaced. fold flat. simpl Str.truthy.
    cbv iota. unfold flat. now rewrite split_without_separator. }
  split; [|split; [|split; [|split; [|split]]]].
  - intros H. rewrite E. simpl. apply keep_component_false in H. now rewrite H.
  - intros H1 H2. rewrite E. simpl.
    destruct (Pathlib.keep_component flat) eqn:Ek; [reflexivity|].
    apply keep_component_false in Ek. tauto.
  - apply replaced_has_no_separator.
  - rewrite E. simpl. destruct (Pathlib.keep_component flat); [|reflexivity].
    simpl. unfold Pathlib.is_root, flat.
    destruct dataset as [|c s]; [reflexivity|]. simpl.
    destruct c as [[] [] [] [] [] [] [] []]; reflexivity.
  - reflexivity.
  - reflexivity.
Qed.

Lemma get_output_dir_default_is_flat_witness :
  get_output_dir "edc505/pokemon" None = ["edc505_pokemon"].
Proof.
  apply (proj1 (proj2 (get_output_dir_default_is_flat "edc505/pokemon")));
    discriminate.
Defined.

Example get_output_dir_of_dotdot : get_output_dir ".." None = [".."].
Proof. reflexivity. Qed.

(** ** What leaves the disk alone *)

Lemma keeps_disk_ret {A} (a : A) : keeps_disk (ret a).
Proof. intros st. now split. Qed.

Lemma keeps_disk_raise {A} (e : exn) : keeps_disk (@raise A e).
Proof. intros st. now split. Qed.

Lemma keeps_disk_print (s : string) : keeps_disk (print s).
Proof. intros st. now split. Qed.

Lemma keeps_disk_lift {A} (r : res A) : keeps_disk (lift r).
Proof. intros st. now split. Qed.

Lemma keeps_disk_bind {A B} (m : M A) (k : A -> M B) :
  keeps_disk m -> (forall a, keeps_disk (k a)) -> keeps_disk (bind m k).
Proof.
  intros Hm Hk st. unfold bind. specialize (Hm st).
  destruct (m st) as [[a|e] st1]; simpl in Hm.
  - destruct Hm as (Hf0 & Hb0 & Hd0). destruct (Hk a st1) as (Hf & Hb & Hd).
    repeat split; congruence.
  - exact Hm.
Qed.

Lemma keeps_disk_when (b : bool) (m : M unit) : keeps_disk m -> keeps_disk (when b m).
Proof. intros Hm. destruct b; [exact Hm|apply keeps_disk_ret]. Qed.

Lemma keeps_disk_for_each {A} (l : list A) (body : A -> M unit) :
  (forall x, keeps_disk (body x)) -> keeps_disk (for_each l body).
Proof.
  intros Hbody. induction l as [|x l IH]; simpl.
  - apply keeps_disk_ret.
  - apply keeps_disk_bind; [apply Hbody|intros _; exact IH].
Qed.

Lemma keeps_disk_try_except {A} (body : M A) (clauses : list (exn_class * (exn -> M A))) :
  keeps_disk body ->
  (forall c h e, In (c, h) clauses -> keeps_disk (h e)) ->
  keeps_disk (try_except body clauses).
Proof.
  intros Hbody Hcl st. unfold try_except. specialize (Hbody st).
  destruct (body st) as [[a|e] st1]; simpl in Hbody; [exact Hbody|].
  assert (Hfind : forall h, find_handler e clauses = Some h -> keeps_disk h).
  { clear -Hcl. induction clauses as [|[c h0] rest IH]; intros h Hh; [discriminate|].
    simpl in Hh. destruct (isinstance e c).
    - inversion Hh. subst. eapply Hcl. now left.
    - apply IH; [|exact Hh]. intros c' h' e' Hin. eapply Hcl. right. exact Hin. }
  destruct (find_handler e clauses) as [h|] eqn:Eh; [|exact Hbody].
  destruct Hbody as (Hf0 & Hb0 & Hd0).
  destruct (Hfind h eq_refl st1) as (Hf & Hb & Hd). repeat split; congruence.
Qed.

Lemma keeps_disk_sys_exit {A} (code : Z) : keeps_disk (@sys_exit A code).
Proof. apply keeps_disk_raise. Qed.

Create HintDb keeps_disk.
#[export] Hint Resolve keeps_disk_ret keeps_disk_raise keeps_disk_print keeps_disk_lift
  keeps_disk_bind keeps_disk_when keeps_disk_for_each keeps_disk_sys_exit : keeps_disk.

Lemma keeps_disk_list_dataset_files (w : world) (dataset : string)
    (token : option string) :
  keeps_disk (list_dataset_files w dataset token).
Proof.
  unfold list_dataset_files. apply keeps_disk_try_except.
  - destruct (list_repo_files w dataset token); auto with keeps_disk.
  - intros c h e Hin. simpl in Hin.
    destruct Hin as [Hin|[Hin|[Hin|[]]]]; inversion Hin; subst;
      auto 10 with keeps_disk.
Qed.

Lemma keeps_disk_inv {A} (m : M A) (st st' : proc) (r : res A) :
  keeps_disk m -> m st = (r, st') ->
  files st' = files st /\ progress_bar st' = progress_bar st /\ dirs st' = dirs st.
Proof. intros Hm E. specialize (Hm st). now rewrite E in Hm. Qed.

Ltac disk_kept H :=
  apply keeps_disk_inv in H;
  [destruct H as (? & ? & ?)
  |solve [auto 20 with keeps_disk | apply keeps_disk_list_dataset_files]].

(** X2. Whenever the program ends through [sys.exit], with whatever
    code (failed listing, empty listing, nothing left after filtering,
    dry run), it has not touched a single file and has not created the
    progress bar: every such exit comes before the output directory is
    made. *)
Theorem main_exit_leaves_disk (w : world) (args : arguments) (st st' : proc) (c : Z) :
  main w args st = (Raise (SystemExit c), st') ->
  files st' = files st /\ progress_bar st' = progress_bar st /\ dirs st' = dirs st.
Proof.
  unfold main. intros H.
  step_as H u1 E1; [no_raise H|]. disk_kept E1.
  step_as H u2 E2; [no_raise H|]. disk_kept E2.
  step_as H infos E3; [disk_kept H; repeat split; congruence|]. disk_kept E3.
  step_as H u4 E4; [disk_kept H; repeat split; congruence|]. disk_kept E4.
  step_as H job E5; [disk_kept H; repeat split; congruence|]. disk_kept E5.
  step_as H u6 E6; [disk_kept H; repeat split; congruence|]. disk_kept E6.
  step_as H u7 E7; [no_raise H|]. disk_kept E7.
  step_as H u8 E8; [disk_kept H; repeat split; congruence|]. disk_kept E8.
  exfalso.
  step_as H u9 E9.
  { unfold mkdir in H. destruct (os_mkdir w _); inversion H. }
  step_as H progress E10.
  { revert H. apply returns_no_raise.
    destruct (args_progress args), (tqdm_installed w); auto 20 with returns. }
  step_as H u11 E11.
  { unfold thread_pool_executor in H.
    destruct (args_threads args <=? 0)%Z; inversion H. }
  step_as H futures E12; [revert H; apply returns_no_raise; auto with returns|].
  step_as H counts E13.
  { apply collect_outcomes_raise_inv in H. destruct H as [H|[m H]]; [|discriminate].
    destruct (run_workers_raise_inv _ _ _ _ _ _ E12 H) as (d & sta & stb & Hd).
    apply download_file_raise_inv in Hd. destruct Hd as (m & Hm & _). discriminate. }
  revert H. apply returns_no_raise. auto 20 with returns.
Qed.

Lemma main_exit_leaves_disk_witness :
  files (snd (main (Scenario.listing ["a.png"]) (Scenario.with_limit (-1)) Scenario.stale))
  = files Scenario.stale
  /\ progress_bar (snd (main (Scenario.listing ["a.png"]) (Scenario.with_limit (-1))
                          Scenario.stale))
     = progress_bar Scenario.stale
  /\ dirs (snd (main (Scenario.listing ["a.png"]) (Scenario.with_limit (-1))
                  Scenario.stale))
     = dirs Scenario.stale.
Proof.
  apply (main_exit_leaves_disk (Scenario.listing ["a.png"]) (Scenario.with_limit (-1))
           Scenario.stale _ 0%Z).
  reflexivity.
Defined.


(** ** What the loop prints *)

Lemma say_nil (st : proc) : say [] st = st.
Proof. destruct st as [fs ds out bar]. unfold say. simpl. now rewrite app_nil_r. Qed.

Lemma say_say (out1 out2 : list string) (st : proc) :
  say out2 (say out1 st) = say (out1 ++ out2) st.
Proof. unfold say. simpl. now rewrite app_assoc. Qed.

Lemma collect_outcomes_step_prints (progress verbose : bool) (name : string) (ok : bool)
    (msg : string) (rest : list (res (string * bool * string)))
    (s f : nat) (st : proc) :
  (progress = true -> is_Some (progress_bar st)) ->
  exists st1,
    collect_outcomes progress verbose (Ret (name, ok, msg) :: rest) s f st
    = collect_outcomes progress verbose rest
        (if ok then S s else s) (if ok then f else S f) st1
    /\ stdout st1
       = (stdout st
          ++ (if negb ok && Str.truthy msg then [msg] else [])
          ++ (if negb progress && verbose && Str.truthy msg then [msg] else []))%list
    /\ (progress = true -> is_Some (progress_bar st1)).
Proof.
  intros Hbar. simpl. unfold bind, future_result, lift, when.
  destruct progress.
  - destruct (Hbar eq_refl) as [n Hn].
    destruct ok, (Str.truthy msg); unfold ret, print, tqdm_update; simpl;
      rewrite Hn; simpl; eexists; (split; [reflexivity|]); simpl;
      (split; [now rewrite ?app_nil_r|intros _; now eexists]).
  - destruct ok, (Str.truthy msg), verbose; unfold ret, print; simpl;
      eexists; (split; [reflexivity|]); simpl;
      (split; [now rewrite <- ?app_assoc, ?app_nil_r|discriminate]).
Qed.

(** X4. What the loop prints, outcome by outcome in completion order: the
    message of a failed outcome, when it has one, as soon as the outcome
    is collected; and, with verbose on and progress reporting off, the
    message of every outcome that has one. So in that mode a failure
    message is printed twice, and with progress reporting on no success
    message is ever printed. *)
Theorem collect_outcomes_prints (progress verbose : bool)
    (outcomes : list (string * bool * string)) :
  forall (s f : nat) (st : proc),
  (progress = true -> is_Some (progress_bar st)) ->
  stdout (snd (collect_outcomes progress verbose (map Ret outcomes) s f st))
  = (stdout st
     ++ flat_map
          (fun o =>
             (if negb (snd (fst o)) && Str.truthy (snd o) then [snd o] else [])
             ++ (if negb progress && verbose && Str.truthy (snd o) then [snd o] else []))
          outcomes)%list.
Proof.
  induction outcomes as [|[[name ok] msg] outcomes IH]; intros s f st Hbar.
  - simpl. now rewrite app_nil_r.
  - destruct (collect_outcomes_step_prints progress verbose name ok msg
                (map Ret outcomes) s f st Hbar) as (st1 & Hstep & Hout & Hbar1).
    cbn [map]. rewrite Hstep. rewrite IH by exact Hbar1. rewrite Hout.
    cbn [flat_map fst snd]. now rewrite <- !app_assoc.
Qed.

Lemma collect_outcomes_prints_witness :
  stdout (snd (collect_outcomes false true
                 (map Ret [("a.png", true, "Downloaded: a.png");
                           ("b.json", false, "Failed: b.json - 404")]) 0 0 fresh))
  = ["Downloaded: a.png"; "Failed: b.json - 404"; "Failed: b.json - 404"].
Proof.
  apply (collect_outcomes_prints false true
           [("a.png", true, "Downloaded: a.png");
            ("b.json", false, "Failed: b.json - 404")] 0 0 fresh).
  discriminate.
Defined.

(** ** Runs of [main] that stop before the pool *)

Lemma bind_quiet_elim {A B} (m : M A) (k : A -> M B) (st : proc)
    (P : res B * proc -> Prop) :
  returns m -> keeps_disk m ->
  (forall a st1, files st1 = files st -> progress_bar st1 = progress_bar st ->
                 dirs st1 = dirs st -> P (k a st1)) ->
  P (bind m k st).
Proof.
  intros Hm Hd Hk. destruct (Hm st) as (a & st1 & E).
  rewrite (bind_ret_eq _ _ _ _ _ E).
  destruct (keeps_disk_inv _ _ _ _ Hd E) as (Hf & Hb & Hds). now apply Hk.
Qed.

Ltac skip_quiet :=
  match goal with
  | |- context [bind ?m ?k ?s] =>
      pattern (bind m k s); apply bind_quiet_elim;
      [auto 20 with returns|auto 20 with keeps_disk|intros ? ? ? ? ?; cbv beta]
  end.

Lemma for_each_print {A} (g : A -> string) (l : list A) (st : proc) :
  for_each l (fun x => print (g x)) st = (Ret tt, say (map g l) st).
Proof.
  revert st. induction l as [|x l IH]; intros st; simpl.
  - unfold ret. now rewrite say_nil.
  - unfold bind. unfold print at 1. rewrite IH. f_equal.
    unfold say. simpl. now rewrite <- app_assoc.
Qed.

(** X5. A dry run lists exactly the files the job would fetch, after the
    filter and in manifest order, one per line under the heading, exits
    with code 0 and leaves the disk as it was. *)
Theorem main_dry_run (w : world) (args : arguments) (st : proc)
    (names : list string) (job : list file_info) :
  list_repo_files w (args_dataset args) (get_token w (args_token args)) = inr names ->
  filter_files (collect_file_infos w (args_dataset args) names [])
    (args_filter args) (args_limit args) = Ret job ->
  job <> [] ->
  args_dry_run args = true ->
  exists (st' : proc) (printed : list string),
    main w args st = (Raise (SystemExit 0), st')
    /\ files st' = files st
    /\ stdout st'
       = (printed
          ++ ("Found " +:+ Str.of_nat (length job) +:+ " file(s) to download.")
          :: (nl +:+ "Files (dry run):")
          :: map (fun f => "  " +:+ rfilename f) job)%list.
Proof.
  intros L F Hjob Hdry. unfold main.
  skip_quiet. skip_quiet.
  rewrite (bind_ret_eq _ _ _ _ _ (list_dataset_files_lists w _ _ names _ L)).
  destruct (collect_file_infos w (args_dataset args) names []) as [|i infos] eqn:Ei.
  { rewrite filter_files_nil in F. inversion F. now subst. }
  unfold when at 1. unfold bind at 1. unfold ret at 1.
  unfold bind at 1. unfold lift at 1. rewrite F.
  destruct job as [|d job]; [contradiction|].
  unfold when at 1. unfold bind at 1. unfold ret at 1.
  unfold bind at 1. unfold print at 1.
  rewrite Hdry. unfold when at 1. unfold bind at 1. unfold bind at 1.
  unfold print at 1. unfold bind at 1. rewrite for_each_print.
  unfold sys_exit, raise. cbv beta iota.
  match goal with
  | |- context [(stdout ?s ++ ["Found " +:+ _])%list] => eexists _, (stdout s)
  end.
  split; [reflexivity|]. split.
  - simpl. congruence.
  - simpl. now rewrite <- !app_assoc.
Qed.

Lemma main_dry_run_witness :
  exists (st' : proc) (printed : list string),
    main Scenario.calm Scenario.dry_run Scenario.stale = (Raise (SystemExit 0), st')
    /\ files st' = files Scenario.stale
    /\ stdout st'
       = (printed ++ ["Found 2 file(s) to download."; nl +:+ "Files (dry run):";
                      "  a.png"; "  sub/b.json"])%list.
Proof.
  apply (main_dry_run Scenario.calm Scenario.dry_run Scenario.stale
           [".gitattributes"; "a.png"; "sub/b.json"]
           [Scenario.entry "a.png"; Scenario.entry "sub/b.json"]).
  - reflexivity.
  - reflexivity.
  - discriminate.
  - reflexivity.
Defined.

(** X6. A thread count of zero or less is not caught anywhere: once the
    output directory exists, building the pool raises [ValueError], which
    nobody handles, before any file is fetched. *)
Theorem main_rejects_nonpositive_threads (w : world) (args : arguments) (st : proc)
    (names : list string) (job : list file_info) :
  list_repo_files w (args_dataset args) (get_token w (args_token args)) = inr names ->
  filter_files (collect_file_infos w (args_dataset args) names [])
    (args_filter args) (args_limit args) = Ret job ->
  job <> [] ->
  args_dry_run args = false ->
  os_mkdir w (get_output_dir (args_dataset args) (args_output args)) = None ->
  (args_threads args <= 0)%Z ->
  exists st',
    main w args st = (Raise (ValueError "max_workers must be greater than 0"), st')
    /\ files st' = files st.
Proof.
  intros L F Hjob Hdry Hmk Hthreads. unfold main.
  skip_quiet. skip_quiet.
  rewrite (bind_ret_eq _ _ _ _ _ (list_dataset_files_lists w _ _ names _ L)).
  destruct (collect_file_infos w (args_dataset args) names []) as [|i infos] eqn:Ei.
  { rewrite filter_files_nil in F. inversion F. now subst. }
  unfold when at 1. unfold bind at 1. unfold ret at 1.
  unfold bind at 1. unfold lift at 1. rewrite F.
  destruct job as [|d job]; [contradiction|].
  unfold when at 1. unfold bind at 1. unfold ret at 1.
  skip_quiet.
  rewrite Hdry. unfold when at 1. unfold bind at 1. unfold ret at 1.
  unfold bind at 1. unfold mkdir at 1. rewrite Hmk. unfold ret at 1.
  apply Z.leb_le in Hthreads.
  destruct (args_progress args), (tqdm_installed w);
    unfold bind, tqdm_create, print, ret, thread_pool_executor, raise;
    rewrite Hthreads; (eexists; split; [reflexivity|simpl; congruence]).
Qed.

Lemma main_rejects_nonpositive_threads_witness :
  exists st',
    main Scenario.calm (Scenario.with_threads 0) Scenario.stale
    = (Raise (ValueError "max_workers must be greater than 0"), st')
    /\ files st' = files Scenario.stale.
Proof.
  apply (main_rejects_nonpositive_threads Scenario.calm (Scenario.with_threads 0)
           Scenario.stale [".gitattributes"; "a.png"; "sub/b.json"]
           [Scenario.entry "a.png"; Scenario.entry "sub/b.json"]).
  - reflexivity.
  - reflexivity.
  - discriminate.
  - reflexivity.
  - reflexivity.
  - reflexivity.
Defined.

(** ** More on [download_file] *)


(** X8. A call prints nothing, leaves the progress bar alone, and leaves
    every file other than its target exactly as it was. *)
Theorem download_file_leaves_the_rest (w : world) (d : file_info) (out : Path)
    (token : option string) (verbose : bool) (st : proc) :
  let st' := snd (download_file w d out token verbose st) in
  stdout st' = stdout st
  /\ progress_bar st' = progress_bar st
  /\ forall k, k <> (out / rfilename d)%path -> files st' !! k = files st !! k.
Proof.
  destruct (download_file_frame w d out token verbose) as (r & W & D & HW & H).
  cbv zeta. rewrite H. simpl. split; [reflexivity|]. split; [reflexivity|].
  intros k Hk. rewrite lookup_union_r; [reflexivity|]. now apply HW.
Qed.

Lemma download_file_leaves_the_rest_witness :
  files (snd (download_file Scenario.calm (Scenario.entry "sub/b.json")
                ["data"] None false Scenario.stale)) !! ["data"; "a.png"]
  = files Scenario.stale !! ["data"; "a.png"].
Proof.
  apply (download_file_leaves_the_rest Scenario.calm (Scenario.entry "sub/b.json")
           ["data"] None false Scenario.stale).
  discriminate.
Defined.



(** X10. A transfer that breaks off in the middle of the stream is
    reported as a failure, and the part already received stays in the
    target file: nothing removes or restores it. *)
Theorem download_file_interrupted_leaves_partial_file (w : world) (d : file_info)
    (out : Path) (token : option string) (verbose : bool) (st : proc)
    (r : response) (cause : string) :
  os_mkdir w (Pathlib.parent (out / rfilename d)%path) = None ->
  requests_get w (url d)
    (if truthy_opt token
     then [("Authorization", "Bearer " +:+ default EmptyString token)] else [])
  = inr r ->
  ((400 <=? status_code r) && (status_code r <? 600))%Z = false ->
  os_open w (out / rfilename d)%path = None ->
  (forall written chunk, os_write w (out / rfilename d)%path written chunk = None) ->
  stream_error r = Some cause ->
  download_file w d out token verbose st
  = (Ret (rfilename d, false, "Failed: " +:+ rfilename d +:+ " - " +:+ cause),
     set_files (insert (out / rfilename d)%path (concat (chunks r)))
       (set_dirs (union (ensured (Pathlib.parent (out / rfilename d)%path))) st)).
Proof.
  intros Emk Eget Est Eop Hw Ese.
  pose proof (download_file_cases w d out token verbose) as H. simpl in H.
  rewrite Emk, Eget, Est, Eop, Ese in H.
  destruct H as [(msg & content & Hloop & _)|[_ H]]; [|apply H].
  exfalso.
  specialize (Hloop (set_files (insert (out / rfilename d)%path []) fresh)).
  rewrite (write_loop_ok w _ (chunks r) Hw []) in Hloop.
  - specialize (Hloop (lookup_insert_eq _ _ _)). discriminate.
  - apply lookup_insert_eq.
Qed.

Lemma download_file_interrupted_leaves_partial_file_witness :
  download_file Scenario.dropped (Scenario.entry "a.png") ["data"] None false
    Scenario.stale
  = (Ret ("a.png", false, "Failed: a.png - Connection broken: IncompleteRead"),
     set_files (insert ["data"; "a.png"] [Byte.x68; Byte.x69])
       (set_dirs (union (ensured ["data"])) Scenario.stale)).
Proof.
  apply (download_file_interrupted_leaves_partial_file Scenario.dropped
           (Scenario.entry "a.png") ["data"] None false Scenario.stale
           {| status_code := 200; reason := "OK";
              response_url := url (Scenario.entry "a.png");
              chunks := [[Byte.x68; Byte.x69]];
              stream_error := Some "Connection broken: IncompleteRead" |}
           "Connection broken: IncompleteRead");
    reflexivity.
Defined.

(** ** The pool *)

Lemma download_success_body (w : world) (d : file_info) (out : Path)
    (token : option string) (verbose : bool) (st st' : proc)
    (name msg : string) (r : response) :
  download_file w d out token verbose st = (Ret (name, true, msg), st') ->
  requests_get w (url d)
    (if truthy_opt token
     then [("Authorization", "Bearer " +:+ default EmptyString token)] else [])
  = inr r ->
  files st' !! (out / rfilename d)%path = Some (concat (chunks r)).
Proof.
  intros E Eget.
  pose proof (download_file_cases w d out token verbose) as H. simpl in H.
  rewrite Eget in H.
  destruct (os_mkdir w _) as [m|].
  { rewrite H in E. discriminate. }
  destruct ((400 <=? status_code r) && (status_code r <? 600))%Z.
  { destruct H as [m H]. rewrite H in E. discriminate. }
  destruct (os_open w _) as [e|].
  { rewrite H in E. discriminate. }
  destruct H as [(m & content & _ & H)|[_ H]].
  { rewrite H in E. discriminate. }
  destruct (stream_error r) as [e|]; rewrite H in E; [discriminate|].
  inversion E. simpl. apply lookup_insert_eq.
Qed.

Lemma laid_over_none (w : world) (out : Path) (token : option string)
    (verbose : bool) (order : list file_info) (k : Path) :
  ~ In k (map (fun d => (out / rfilename d)%path) order) ->
  foldr (fun d acc => acc ∪ files (snd (download_file w d out token verbose fresh)))
    ∅ order !! k = None.
Proof.
  induction order as [|x order IH]; intros Hk; simpl.
  - apply lookup_empty.
  - apply lookup_union_None. split.
    + apply IH. intros Hin. apply Hk. now right.
    + apply download_file_laid_over. intros ->. apply Hk. now left.
Qed.

Lemma laid_over_some (w : world) (out : Path) (token : option string)
    (verbose : bool) (order : list file_info) (d : file_info) (v : bytes) :
  NoDup (map (fun d => (out / rfilename d)%path) order) ->
  In d order ->
  files (snd (download_file w d out token verbose fresh)) !! (out / rfilename d)%path
  = Some v ->
  foldr (fun d acc => acc ∪ files (snd (download_file w d out token verbose fresh)))
    ∅ order !! (out / rfilename d)%path = Some v.
Proof.
  induction order as [|x order IH]; intros Hnd Hin Hv; [contradiction|].
  simpl in Hnd. apply NoDup_cons in Hnd. destruct Hnd as [Hx Hnd]. simpl.
  destruct Hin as [->|Hin].
  - rewrite lookup_union_r; [exact Hv|].
    apply laid_over_none. intros Hin. apply Hx. now apply list_elem_of_In.
  - apply lookup_union_Some_l. now apply IH.
Qed.

(** X11. In a job whose targets are pairwise distinct, whatever the
    order in which the workers run, each file whose download succeeds
    holds exactly the body of its response once the pool is done. *)
Theorem pool_leaves_each_body (w : world) (out : Path) (token : option string)
    (verbose : bool) (order : list file_info) (st : proc)
    (d : file_info) (name msg : string) (r : response) :
  NoDup (map (fun d => (out / rfilename d)%path) order) ->
  In d order ->
  fst (download_file w d out token verbose st) = Ret (name, true, msg) ->
  requests_get w (url d)
    (if truthy_opt token
     then [("Authorization", "Bearer " +:+ default EmptyString token)] else [])
  = inr r ->
  files (snd (run_workers (fun f => download_file w f out token verbose) order st))
    !! (out / rfilename d)%path
  = Some (concat (chunks r)).
Proof.
  intros Hnd Hin Hok Eget.
  rewrite run_workers_from_fresh. simpl.
  apply lookup_union_Some_l. apply laid_over_some; [exact Hnd|exact Hin|].
  rewrite (download_file_from_fresh w d out token verbose st) in Hok. simpl in Hok.
  eapply download_success_body; [|exact Eget].
  rewrite <- Hok. apply surjective_pairing.
Qed.

Lemma pool_leaves_each_body_witness :
  files (snd (run_workers (fun f => download_file Scenario.calm f ["data"] None false)
                [Scenario.entry "sub/b.json"; Scenario.entry "a.png"] Scenario.stale))
    !! ["data"; "a.png"]
  = Some [Byte.x68; Byte.x69; Byte.x21].
Proof.
  apply (pool_leaves_each_body Scenario.calm ["data"] None false
           [Scenario.entry "sub/b.json"; Scenario.entry "a.png"] Scenario.stale
           (Scenario.entry "a.png") "a.png" EmptyString
           (Scenario.ok_response [[Byte.x68; Byte.x69]; [Byte.x21]])).
  - apply NoDup_cons. split; [|apply NoDup_cons; split; [|apply NoDup_nil_2]].
    + intros H. apply list_elem_of_In in H. simpl in H.
      destruct H as [H|[]]. discriminate.
    + intros H. apply list_elem_of_In in H. destruct H.
  - right. now left.
  - reflexivity.
  - reflexivity.
Defined.

(** ** More on [filter_files] *)

Lemma filter_files_limit_positive_witness :
  filter_files [Scenario.entry "a.png"; Scenario.entry "b.json"; Scenario.entry "c.png"]
    None (Some 2%Z)
  = Ret (firstn (Z.to_nat 2) [Scenario.entry "a.png"; Scenario.entry "b.json";
                               Scenario.entry "c.png"])
  /\ length (firstn (Z.to_nat 2) [Scenario.entry "a.png"; Scenario.entry "b.json";
                                  Scenario.entry "c.png"])
     = Nat.min (length [Scenario.entry "a.png"; Scenario.entry "b.json";
                        Scenario.entry "c.png"]) (Z.to_nat 2).
Proof.
  apply (filter_files_limit_positive
           [Scenario.entry "a.png"; Scenario.entry "b.json"; Scenario.entry "c.png"] 2%Z).
  lia.
Defined.

(** X13. A negative limit is a Python slice from the end: the last
    [-limit] entries are dropped, all of them when there are no more than
    that, and the ones kept are the leading ones in their order. *)
Theorem filter_files_negative_limit {A} `{HasRfilename A} (files : list A) (limit : Z) :
  (limit < 0)%Z ->
  exists kept dropped,
    filter_files files None (Some limit) = Ret kept
    /\ files = (kept ++ dropped)%list
    /\ length dropped = Nat.min (length files) (Z.to_nat (- limit)).
Proof.
  intros Hl.
  exists (firstn (length files - Z.to_nat (- limit)) files),
         (skipn (length files - Z.to_nat (- limit)) files).
  split; [|split].
  - unfold filter_files. simpl.
    destruct (Z.eqb_spec limit 0) as [->|_]; [lia|]. simpl.
    unfold slice_to. destruct (Z.leb_spec 0 limit) as [Hge|_]; [lia|reflexivity].
  - symmetry. apply firstn_skipn.
  - rewrite length_skipn. lia.
Qed.

Lemma filter_files_negative_limit_witness :
  exists kept dropped,
    filter_files [Scenario.entry "a.png"; Scenario.entry "b.json"] None (Some (-1)%Z)
    = Ret kept
    /\ [Scenario.entry "a.png"; Scenario.entry "b.json"] = (kept ++ dropped)%list
    /\ length dropped = 1%nat.
Proof.
  apply (filter_files_negative_limit
           [Scenario.entry "a.png"; Scenario.entry "b.json"] (-1)%Z).
  lia.
Defined.

Lemma lower_char_idem (c : ascii) : Str.lower_char (Str.lower_char c) = Str.lower_char c.
Proof. destruct c as [[] [] [] [] [] [] [] []]; reflexivity. Qed.

Lemma lower_idem (s : string) : Str.lower (Str.lower s) = Str.lower s.
Proof.
  induction s as [|c s IH]; simpl; [reflexivity|].
  now rewrite lower_char_idem, IH.
Qed.

Lemma length_split (sep : ascii) (s : string) :
  length (Str.split sep s)
  = S (length (List.filter (Ascii.eqb sep) (list_ascii_of_string s))).
Proof.
  induction s as [|c s IH]; [reflexivity|].
  simpl. rewrite (Ascii.eqb_sym sep c).
  destruct (Ascii.eqb c sep); simpl.
  - now rewrite IH.
  - destruct (Str.split sep s) as [|h t] eqn:E.
    + now apply split_nonempty in E.
    + simpl in *. exact IH.
Qed.

(** X14. The extension list a filter string stands for: one extension
    per comma-separated piece, empty pieces included, each stripped,
    lowercased and starting with a dot. *)
Theorem ext_list_of_normalized (extensions : string) :
  length (ext_list_of extensions)
  = S (length (List.filter (Ascii.eqb ",") (list_ascii_of_string extensions)))
  /\ Forall (fun ext => Str.startswith ext "." = true /\ Str.lower ext = ext)
       (ext_list_of extensions).
Proof.
  split.
  - unfold ext_list_of. rewrite !length_map. apply length_split.
  - unfold ext_list_of. rewrite map_map. apply List.Forall_forall.
    intros ext Hext. apply in_map_iff in Hext. destruct Hext as (piece & <- & _).
    split; [apply with_dot_startswith|].
    unfold with_dot. destruct (Str.startswith (Str.lower (Str.strip piece)) ".").
    + apply lower_idem.
    + rewrite append_cons, append_nil. simpl. now rewrite lower_idem.
Qed.

(** X15. On entries that carry an [rfilename] attribute, the extension
    filter keeps exactly the entries whose lowercased name ends in one of
    the normalized extensions, in their order. *)
Theorem filter_files_on_objects (files : list sibling) (c : ascii) (extensions : string) :
  exists kept,
    filter_files files (Some (String c extensions)) None = Ret kept
    /\ kept = List.filter
                (fun s => existsb (Str.endswith (Str.lower (sibling_rfilename s)))
                            (ext_list_of (String c extensions)))
                files
    /\ forall s,
         In s kept <->
         In s files
         /\ exists ext,
              In ext (ext_list_of (String c extensions))
              /\ Str.endswith (Str.lower (sibling_rfilename s)) ext = true.
Proof.
  eexists. split; [apply filter_files_sibling|]. split; [reflexivity|].
  intros s. rewrite filter_In, existsb_exists. reflexivity.
Qed.

Example filter_objects_by_extension :
  filter_files
    [ {| sibling_rfilename := "a.PNG"; sibling_size := None |};
      {| sibling_rfilename := "b.json"; sibling_size := None |};
      {| sibling_rfilename := "c.png"; sibling_size := None |} ]
    (Some " png ,.JPG") None
  = Ret [ {| sibling_rfilename := "a.PNG"; sibling_size := None |};
          {| sibling_rfilename := "c.png"; sibling_size := None |} ].
Proof. reflexivity. Qed.

(** ** Runs of [main] that end on an exception *)

(** X16. With a non-empty [--filter], as soon as the repository lists one
    file that is not hidden, [main] ends on the [AttributeError] that
    [filter_files] raises on the manifest's dict entries, before anything
    is created or fetched. *)
Theorem main_with_filter_raises (w : world) (args : arguments) (st : proc)
    (names : list string) (c : ascii) (extensions : string) :
  list_repo_files w (args_dataset args) (get_token w (args_token args)) = inr names ->
  List.filter (fun f => negb (Str.startswith f ".")) names <> [] ->
  args_filter args = Some (String c extensions) ->
  exists st',
    main w args st
    = (Raise (AttributeError "'dict' object has no attribute 'rfilename'"), st')
    /\ files st' = files st.
Proof.
  intros L Hvisible Hfilter. unfold main.
  skip_quiet. skip_quiet.
  rewrite (bind_ret_eq _ _ _ _ _ (list_dataset_files_lists w _ _ names _ L)).
  destruct (collect_file_infos w (args_dataset args) names []) as [|i infos] eqn:Ei.
  { exfalso. apply Hvisible. rewrite collect_file_infos_spec in Ei. simpl in Ei.
    now apply map_eq_nil in Ei. }
  unfold when at 1. unfold bind at 1. unfold ret at 1.
  unfold bind at 1. unfold lift at 1.
  rewrite Hfilter, filter_files_dict_raises.
  eexists. split; [reflexivity|]. congruence.
Qed.

Lemma main_with_filter_raises_witness :
  exists st',
    main Scenario.calm Scenario.png_only Scenario.stale
    = (Raise (AttributeError "'dict' object has no attribute 'rfilename'"), st')
    /\ files st' = files Scenario.stale.
Proof.
  apply (main_with_filter_raises Scenario.calm Scenario.png_only Scenario.stale
           [".gitattributes"; "a.png"; "sub/b.json"] "." "png").
  - reflexivity.
  - discriminate.
  - reflexivity.
Defined.

(** X17. When the output directory itself cannot be created, [main] ends
    on that [OSError], which nobody handles: no pool is built and no file
    is fetched. *)
Theorem main_output_dir_failure (w : world) (args : arguments) (st : proc)
    (names : list string) (job : list file_info) (cause : string) :
  list_repo_files w (args_dataset args) (get_token w (args_token args)) = inr names ->
  filter_files (collect_file_infos w (args_dataset args) names [])
    (args_filter args) (args_limit args) = Ret job ->
  job <> [] ->
  args_dry_run args = false ->
  os_mkdir w (get_output_dir (args_dataset args) (args_output args)) = Some cause ->
  exists st',
    main w args st = (Raise (OSError cause), st')
    /\ files st' = files st
    /\ progress_bar st' = progress_bar st.
Proof.
  intros L F Hjob Hdry Hmk. unfold main.
  skip_quiet. skip_quiet.
  rewrite (bind_ret_eq _ _ _ _ _ (list_dataset_files_lists w _ _ names _ L)).
  destruct (collect_file_infos w (args_dataset args) names []) as [|i infos] eqn:Ei.
  { rewrite filter_files_nil in F. inversion F. now subst. }
  unfold when at 1. unfold bind at 1. unfold ret at 1.
  unfold bind at 1. unfold lift at 1. rewrite F.
  destruct job as [|d job]; [contradiction|].
  unfold when at 1. unfold bind at 1. unfold ret at 1.
  skip_quiet.
  rewrite Hdry. unfold when at 1. unfold bind at 1. unfold ret at 1.
  unfold bind at 1. unfold mkdir at 1. rewrite Hmk. unfold raise.
  eexists. split; [reflexivity|]. split; congruence.
Qed.

Lemma main_output_dir_failure_witness :
  exists st',
    main Scenario.read_only Scenario.args Scenario.stale
    = (Raise (OSError "[Errno 13] Permission denied: 'data'"), st')
    /\ files st' = files Scenario.stale
    /\ progress_bar st' = progress_bar Scenario.stale.
Proof.
  apply (main_output_dir_failure Scenario.read_only Scenario.args Scenario.stale
           [".gitattributes"; "a.png"; "sub/b.json"]
           [Scenario.entry "a.png"; Scenario.entry "sub/b.json"]).
  - reflexivity.
  - reflexivity.
  - discriminate.
  - reflexivity.
  - reflexivity.
Defined.

(** X18. Every failure of the listing is reported before the exit: at
    least one line is printed, the first one starting with ["Error"], the
    disk is left alone, and [list_dataset_files] ends in [sys.exit(1)]. *)
Theorem list_dataset_files_reports_failure (w : world) (dataset : string)
    (token : option string) (err : api_error) (st : proc) :
  list_repo_files w dataset token = inl err ->
  exists first rest,
    list_dataset_files w dataset token st
    = (Raise (SystemExit 1), say (first :: rest) st)
    /\ Str.startswith first "Error" = true.
Proof.
  intros L. unfold list_dataset_files, try_except, bind. rewrite L.
  destruct err as [m|m|m]; simpl.
  - eexists _, _. split.
    + unfold print, sys_exit, raise, say. simpl. rewrite <- app_assoc. reflexivity.
    + rewrite append_cons. reflexivity.
  - eexists _, _. split.
    + unfold print, sys_exit, raise, say. simpl. rewrite <- app_assoc. reflexivity.
    + rewrite append_cons. reflexivity.
  - eexists _, _. split.
    + unfold print, sys_exit, raise, say. simpl. reflexivity.
    + rewrite append_cons. reflexivity.
Qed.

Lemma list_dataset_files_reports_failure_witness :
  exists first rest,
    list_dataset_files Scenario.gone "u/d" None fresh
    = (Raise (SystemExit 1), say (first :: rest) fresh)
    /\ Str.startswith first "Error" = true.
Proof.
  apply (list_dataset_files_reports_failure Scenario.gone "u/d" None
           (RepoNotFound "404 Client Error") fresh).
  reflexivity.
Defined.

Lemma map_ret_no_raise {B} (outcomes : list B) (e : exn) :
  ~ In (Raise e) (map Ret outcomes).
Proof.
  intros Hin. apply in_map_iff in Hin. destruct Hin as (o & Ho & _). discriminate.
Qed.

(** X19. If, in a job that gets as far as the pool, the parent directory
    of any one file cannot be created, [main] ends on an [OSError] raised
    out of the loop: it never reaches the summary. *)
Theorem main_dies_with_a_worker (w : world) (args : arguments) (st : proc)
    (names : list string) (job : list file_info) (d : file_info) (cause : string) :
  list_repo_files w (args_dataset args) (get_token w (args_token args)) = inr names ->
  filter_files (collect_file_infos w (args_dataset args) names [])
    (args_filter args) (args_limit args) = Ret job ->
  In d job ->
  args_dry_run args = false ->
  os_mkdir w (get_output_dir (args_dataset args) (args_output args)) = None ->
  (0 < args_threads args)%Z ->
  os_mkdir w (Pathlib.parent
                (get_output_dir (args_dataset args) (args_output args) / rfilename d)%path)
  = Some cause ->
  exists m st', main w args st = (Raise (OSError m), st').
Proof.
  intros L F Hin Hdry Hmk Hthreads Hfail. unfold main.
  skip_returning. skip_returning.
  rewrite (bind_ret_eq _ _ _ _ _ (list_dataset_files_lists w _ _ names _ L)).
  destruct (collect_file_infos w (args_dataset args) names []) as [|i infos] eqn:Ei.
  { rewrite filter_files_nil in F. inversion F. subst. contradiction. }
  unfold when at 1. unfold bind at 1. unfold ret at 1.
  unfold bind at 1. unfold lift at 1. rewrite F.
  destruct job as [|d0 job]; [contradiction|].
  unfold when at 1. unfold bind at 1. unfold ret at 1.
  skip_returning.
  rewrite Hdry. unfold when at 1. unfold bind at 1. unfold ret at 1.
  unfold bind at 1. unfold mkdir at 1. rewrite Hmk. unfold ret at 1.
  match goal with
  | |- context [bind ?m ?k ?s] =>
      assert (Hprog : exists progress st10,
                 m s = (Ret progress, st10)
                 /\ (progress = true -> is_Some (progress_bar st10)))
  end.
  { destruct (args_progress args), (tqdm_installed w).
    - eexists true, _. split; [reflexivity|]. intros _. now eexists.
    - eexists false, _. split; [reflexivity|]. discriminate.
    - eexists false, _. split; [reflexivity|]. discriminate.
    - eexists false, _. split; [reflexivity|]. discriminate. }
  destruct Hprog as (progress & st10 & Eprog & Hbar).
  rewrite (bind_ret_eq _ _ _ _ _ Eprog).
  unfold bind at 1. unfold thread_pool_executor at 1.
  destruct (Z.leb_spec (args_threads args) 0) as [Hle|_]; [lia|]. unfold ret at 1.
  set (out := get_output_dir (args_dataset args) (args_output args)) in *.
  set (token := get_token w (args_token args)) in *.
  pose proof (run_workers_from_fresh w out token (args_verbose args)
                (completion_order w (d0 :: job)) st10) as Erun.
  rewrite (bind_ret_eq _ _ _ _ _ Erun).
  set (futures := map (fun d => fst (download_file w d out token (args_verbose args) fresh))
                    (completion_order w (d0 :: job))) in *.
  cbv beta.
  assert (Hraised : In (Raise (OSError cause)) futures).
  { subst futures. apply in_map_iff. exists d. split.
    - pose proof (download_file_cases w d out token (args_verbose args)) as H.
      simpl in H. rewrite Hfail in H. now rewrite H.
    - eapply Permutation_in; [|exact Hin]. symmetry. apply completion_order_perm. }
  match goal with
  | |- context [bind (collect_outcomes progress ?v futures 0 0) _ ?s] =>
      destruct (collect_outcomes_spec progress v futures 0 0 s)
        as (outcomes & rest & st13 & Hsplit & _ & _ & Hend)
  end.
  { intros Hp. simpl. now apply Hbar. }
  destruct Hend as [[-> _]|(e & rest' & -> & Hraise)].
  - exfalso. rewrite app_nil_r in Hsplit. rewrite Hsplit in Hraised.
    exact (map_ret_no_raise _ _ Hraised).
  - rewrite (bind_raise_eq _ _ _ _ _ Hraise).
    assert (He : In (Raise e) futures).
    { rewrite Hsplit. apply in_or_app. right. now left. }
    destruct (run_workers_raise_inv _ _ _ _ _ _ Erun He) as (x & sta & stb & Hx).
    apply download_file_raise_inv in Hx. destruct Hx as (m & -> & _).
    now exists m, st13.
Qed.

Lemma main_dies_with_a_worker_witness :
  exists m st',
    main (Scenario.blocked ["a.png"; "sub/b.json"]) Scenario.args fresh
    = (Raise (OSError m), st').
Proof.
  apply (main_dies_with_a_worker (Scenario.blocked ["a.png"; "sub/b.json"])
           Scenario.args fresh ["a.png"; "sub/b.json"]
           [Scenario.entry "a.png"; Scenario.entry "sub/b.json"]
           (Scenario.entry "sub/b.json") "[Errno 17] File exists: 'data/sub'").
  - reflexivity.
  - reflexivity.
  - right. now left.
  - reflexivity.
  - reflexivity.
  - reflexivity.
  - reflexivity.
Defined.

(** ** The directories a call makes *)

Lemma self_in_ensured (p : Path) : p ∈ ensured p.
Proof.
  unfold ensured, Pathlib.self_and_parents. apply elem_of_list_to_set.
  destruct (length p); simpl; left.
Qed.

(** X20. Every call whose directory creation succeeds leaves the parent
    directory of its target in place, with all its ancestors, whether the
    download then succeeds or fails: the directories are made before the
    request is sent, and nothing removes them. *)
Theorem download_file_makes_parent (w : world) (d : file_info) (out : Path)
    (token : option string) (verbose : bool) (st : proc) :
  os_mkdir w (Pathlib.parent (out / rfilename d)%path) = None ->
  dirs (snd (download_file w d out token verbose st))
  = ensured (Pathlib.parent (out / rfilename d)%path) ∪ dirs st
  /\ Pathlib.parent (out / rfilename d)%path
     ∈ dirs (snd (download_file w d out token verbose st)).
Proof.
  intros Emk.
  assert (E : dirs (snd (download_file w d out token verbose st))
              = ensured (Pathlib.parent (out / rfilename d)%path) ∪ dirs st).
  { pose proof (download_file_cases w d out token verbose) as H. simpl in H.
    rewrite Emk in H.
    destruct (requests_get w _ _) as [e|r]; [now rewrite H|].
    destruct ((400 <=? status_code r) && (status_code r <? 600))%Z.
    { destruct H as [m H]. now rewrite H. }
    destruct (os_open w _) as [e|]; [now rewrite H|].
    destruct H as [(msg & content & _ & H)|[_ H]]; [now rewrite H|].
    destruct (stream_error r); now rewrite H. }
  split; [exact E|]. rewrite E. apply elem_of_union_l. apply self_in_ensured.
Qed.

Lemma download_file_makes_parent_witness :
  dirs (snd (download_file Scenario.missing (Scenario.entry "images/train/1.png")
               ["data"] None false fresh))
  = ensured ["data"; "images"; "train"] ∪ dirs fresh
  /\ ["data"; "images"; "train"]
     ∈ dirs (snd (download_file Scenario.missing (Scenario.entry "images/train/1.png")
                    ["data"] None false fresh)).
Proof.
  apply (download_file_makes_parent Scenario.missing
           (Scenario.entry "images/train/1.png") ["data"] None false fresh).
  reflexivity.
Defined.

Example ensured_lists_the_ancestors :
  Pathlib.self_and_parents ["data"; "images"; "train"]
  = [["data"; "images"; "train"]; ["data"; "images"]; ["data"]; []].
Proof. reflexivity. Qed.
